(** * PyMUST [txdelay3]: transmit delays for a matrix array

    A shallow embedding of [src/pymust/txdelay3.py] (functions [txdelay3] and
    [solidAngle]) and the properties of its delay laws.

    Modelling conventions.
    - numpy [float64] numbers are idealised as the real numbers [R] of the
      Standard Library: rounding, infinities and NaN are not modelled.
    - A two-dimensional [ndarray] is a list of rows. The rows of one array
      have a common length: the statements about the two rows [xe], [ye]
      of [param.elements] assume [length xe = length ye].
    - [param] is a mutable [utils.Param] object: the embedding threads its
      state explicitly, also through a failing call.
    - Python exceptions are values of the type [exn]. *)

From Stdlib Require Import String Reals Lra Lia Bool Arith List Permutation Sorted.
Import ListNotations.
Open Scope R_scope.

(** ** Exceptions and results *)

Inductive exn : Type :=
| AssertionError (msg : string)
| ValueError (msg : string)
| TypeError (msg : string)
| UnboundLocalError (var : string)
| RecursionError.

Inductive result (A : Type) : Type :=
| Ok (a : A)
| Raise (e : exn).
Arguments Ok {A} a.
Arguments Raise {A} e.

Definition is_ok {A} (r : result A) : bool :=
  match r with Ok _ => true | Raise _ => false end.

(** ** The configuration object [utils.Param] *)

(** Modelled from the spec: the class [utils.Param] is not among the
    sources. It is the configuration object of the specification, with
    the fields that [txdelay3] reads or writes: the element coordinates,
    the medium velocity, the element width and height, and the output
    delays. A field that is absent from the object is [None]. *)

Definition matrix := list (list R).

Record Param : Type := mkParam {
  elements : option matrix;   (* PARAM.elements: two rows, x then y *)
  c        : option R;        (* PARAM.c: longitudinal velocity *)
  width    : option R;        (* PARAM.width *)
  height   : option R;        (* PARAM.height *)
  TXdelay  : option matrix    (* PARAM.TXdelay: written by txdelay3 *)
}.

Definition set_c (v : R) (p : Param) : Param :=
  mkParam (elements p) (Some v) (width p) (height p) (TXdelay p).

Definition set_TXdelay (d : matrix) (p : Param) : Param :=
  mkParam (elements p) (c p) (width p) (height p) (Some d).

(** Modelled from the spec: [utils.isfield] is not among the sources; it
    tells whether the configuration has the field. *)
Definition isfield {A} (f : Param -> option A) (p : Param) : bool :=
  match f p with Some _ => true | None => false end.

(** ** Python values that reach [txdelay3] through [*args] *)

Inductive pyval : Type :=
| PFloat (r : R)            (* a Python or numpy scalar *)
| PList (l : list R)        (* a sequence of numbers *)
| PParam (p : Param).       (* a utils.Param object *)

Definition isParam (v : pyval) : bool :=
  match v with PParam _ => true | _ => false end.

(** [a + b] on Python values: numbers add, lists concatenate, anything
    else is a TypeError. *)
Definition py_add (a b : pyval) : result pyval :=
  match a, b with
  | PFloat x, PFloat y => Ok (PFloat (x + y))
  | PList x, PList y => Ok (PList (x ++ y))
  | _, _ => Raise (TypeError "unsupported operand type(s) for +")
  end.

(** [np.isscalar] *)
Definition isscalar (v : pyval) : bool :=
  match v with PFloat _ => true | _ => false end.

(** ** numpy primitives *)

Module Numpy.

Definition Rltb (x y : R) : bool := if Rlt_dec x y then true else false.
Definition Rleb (x y : R) : bool := if Rle_dec x y then true else false.
Definition Reqb (x y : R) : bool := if Req_dec_T x y then true else false.

(** [np.sign] *)
Definition sign (x : R) : R :=
  if Rlt_dec 0 x then 1 else if Rlt_dec x 0 then -1 else 0.

(** [np.hypot] *)
Definition hypot (x y : R) : R := sqrt (x * x + y * y).

(** [np.arctan2(y, x)] *)
Definition arctan2 (y x : R) : R :=
  if Rlt_dec 0 x then atan (y / x)
  else if Rlt_dec x 0 then
    (if Rle_dec 0 y then atan (y / x) + PI else atan (y / x) - PI)
  else if Rlt_dec 0 y then PI / 2
  else if Rlt_dec y 0 then - (PI / 2)
  else 0.

(** [np.min] and [np.max] of one row; they raise on an empty row. *)
Fixpoint amin (l : list R) : option R :=
  match l with
  | [] => None
  | x :: t => match amin t with
              | None => Some x
              | Some m => Some (Rmin x m)
              end
  end.

Fixpoint amax (l : list R) : option R :=
  match l with
  | [] => None
  | x :: t => match amax t with
              | None => Some x
              | Some m => Some (Rmax x m)
              end
  end.

(** [np.sort] of a row (ascending). *)
Fixpoint insert (x : R) (l : list R) : list R :=
  match l with
  | [] => [x]
  | y :: t => if Rle_dec x y then x :: y :: t else y :: insert x t
  end.

Fixpoint sort (l : list R) : list R :=
  match l with
  | [] => []
  | x :: t => insert x (sort t)
  end.

(** [np.unique]: the sorted distinct values. *)
Fixpoint dedup (l : list R) : list R :=
  match l with
  | [] => []
  | x :: t =>
      match t with
      | [] => [x]
      | y :: _ => if Req_dec_T x y then dedup t else x :: dedup t
      end
  end.

Definition unique (l : list R) : list R := dedup (sort l).

(** [np.meshgrid(ux, uy)] followed by [.flatten()] on each output:
    [xep] has one copy of [ux] per entry of [uy], and row [i] of [yep]
    repeats [uy[i]] once per entry of [ux]. *)
Definition meshgrid_x_flat (ux uy : list R) : list R :=
  flat_map (fun _ => ux) uy.
Definition meshgrid_y_flat (ux uy : list R) : list R :=
  flat_map (fun y => map (fun _ => y) ux) uy.

(** Elementwise operations on rows of a common length. *)
Fixpoint map2 {A B C} (f : A -> B -> C) (a : list A) (b : list B) : list C :=
  match a, b with
  | x :: a', y :: b' => f x y :: map2 f a' b'
  | _, _ => []
  end.

(** [np.all(a == b)] for a one-dimensional [a] and a one-row [b], with
    numpy broadcasting: equal lengths compare elementwise, a length of 1
    is stretched, and other shapes cannot be broadcast together. *)
Definition all_eq (a b : list R) : result bool :=
  if Nat.eqb (length a) (length b) then Ok (forallb (fun t => t) (map2 Reqb a b))
  else if Nat.eqb (length a) 1 then
    Ok (forallb (fun y => Reqb (hd 0 a) y) b)
  else if Nat.eqb (length b) 1 then
    Ok (forallb (fun x => Reqb x (hd 0 b)) a)
  else Raise (ValueError "operands could not be broadcast together").

End Numpy.
Import Numpy.

(** ** Three-dimensional vectors (the columns of the line-focus arrays) *)

Definition vec3 : Type := (R * R * R)%type.

Definition vsub (a b : vec3) : vec3 :=
  let '(a1, a2, a3) := a in
  let '(b1, b2, b3) := b in
  (a1 - b1, a2 - b2, a3 - b3).

(** [np.cross] *)
Definition cross (a b : vec3) : vec3 :=
  let '(a1, a2, a3) := a in
  let '(b1, b2, b3) := b in
  (a2 * b3 - a3 * b2, a3 * b1 - a1 * b3, a1 * b2 - a2 * b1).

(** [np.linalg.norm] *)
Definition norm (a : vec3) : R :=
  let '(a1, a2, a3) := a in sqrt (a1 * a1 + a2 * a2 + a3 * a3).

(** ** [solidAngle] (lines 270-295)

    The local function [w] closes over [H]. *)

Definition solidAngle (r l b az el : R) : R :=
  let L1 := l / 2 + r * cos el * cos az in
  let L2 := - l / 2 + r * cos el * cos az in
  let B1 := b / 2 + r * cos el * sin az in
  let B2 := b / 2 - r * cos el * sin az in
  let H := r * sin el in
  let w := fun l b => asin (l * b / hypot l H / hypot b H) in
  w L1 B1 + w L1 B2 - w L2 B1 - w L2 B2.

(** The formula of the specification, written from its words, to be
    compared with [solidAngle]. *)
Module SolidAngleSpec.
Definition w (H L B : R) : R := asin (L * B / hypot L H / hypot B H).
Definition L1 (r l az el : R) : R := l / 2 + r * cos el * cos az.
Definition L2 (r l az el : R) : R := - l / 2 + r * cos el * cos az.
Definition B1 (r b az el : R) : R := b / 2 + r * cos el * sin az.
Definition B2 (r b az el : R) : R := b / 2 - r * cos el * sin az.
Definition H (r el : R) : R := r * sin el.
Definition Omega (r l b az el : R) : R :=
  w (H r el) (L1 r l az el) (B1 r b az el)
  + w (H r el) (L1 r l az el) (B2 r b az el)
  - w (H r el) (L2 r l az el) (B1 r b az el)
  - w (H r el) (L2 r l az el) (B2 r b az el).
End SolidAngleSpec.

(** ** A state and exception monad over the [param] object *)

Definition M (A : Type) : Type := Param -> result A * Param.

Definition ret {A} (a : A) : M A := fun p => (Ok a, p).
Definition raise {A} (e : exn) : M A := fun p => (Raise e, p).
Definition bind {A B} (m : M A) (k : A -> M B) : M B :=
  fun p => match m p with
           | (Ok a, p') => k a p'
           | (Raise e, p') => (Raise e, p')
           end.
Definition get : M Param := fun p => (Ok p, p).
Definition modify (f : Param -> Param) : M unit := fun p => (Ok tt, f p).
Definition lift {A} (r : result A) : M A := fun p => (r, p).
Definition assert (b : bool) (msg : string) : M unit :=
  if b then ret tt else raise (AssertionError msg).

Notation "x <- m ;; k" := (bind m (fun x => k))
  (at level 61, m at next level, right associativity).
Notation "m ;;; k" := (bind m (fun _ => k))
  (at level 61, right associativity).

(** ** Output normalisation (line 264)

    [delays - np.min(delays,-1).reshape((-1, 1))]: every row is shifted by
    its own minimum; [np.min] raises on a row without entries. *)

Definition shift_min (row : list R) : result (list R) :=
  match amin row with
  | Some m => Ok (map (fun v => v - m) row)
  | None => Raise (ValueError "zero-size array to reduction operation minimum which has no identity")
  end.

Fixpoint normalize (delays : matrix) : result matrix :=
  match delays with
  | [] => Ok []
  | row :: rest =>
      match shift_min row with
      | Raise e => Raise e
      | Ok row' => match normalize rest with
                   | Raise e => Raise e
                   | Ok rest' => Ok (row' :: rest')
                   end
      end
  end.

(** ** The plaid-grid test (lines 210-214) *)

Definition plaid_test (xe ye : list R) : result bool :=
  let uxe := unique xe in
  let uye := unique ye in
  let xep := meshgrid_x_flat uxe uye in
  let yep := meshgrid_y_flat uxe uye in
  match all_eq (sort xep) (sort xe) with
  | Raise e => Raise e
  | Ok tx => match all_eq (sort yep) (sort ye) with
             | Raise e => Raise e
             | Ok ty => Ok (tx && ty)
             end
  end.

(** ** Columns: [np.array(v).reshape((-1, 1))]

    A number gives one row, a sequence one row per entry, and a [Param]
    a single cell of dtype object, on which arithmetic is a TypeError. *)

Inductive column : Type :=
| NumCol (l : list R)
| ObjCol.

Definition to_column (v : pyval) : column :=
  match v with
  | PFloat r => NumCol [r]
  | PList l => NumCol l
  | PParam _ => ObjCol
  end.

Definition len (col : column) : nat :=
  match col with NumCol l => length l | ObjCol => 1%nat end.

Inductive beam : Type := Origo | DivergingWave | PlaneWave.

Definition outcome : Type := (result matrix * option Param)%type.

(** ** [txdelay3] (lines 14-267) *)

Section Txdelay3.

(** External collaborators. [Param.getElementPositions] belongs to
    [utils], and [scipy.optimize.fminbound] to SciPy: both are taken as
    parameters. [getElementPositions] reads [param] and may raise; its
    four results are not used by the focus and plane-wave laws and are
    overwritten in the diverging-wave branch. *)
Variable getElementPositions :
  Param -> result (list R * list R * list R * list R).
Variable fminbound : (R -> R) -> R -> R -> R -> R.

Definition arg (i : nat) (args : list pyval) : pyval := nth i args (PFloat 0).

(** Lines 153-171. The two [ValueError(...)] expressions (lines 164 and
    169) build an exception and drop it: nothing is raised there, and
    the first statement that fails is the read of the unbound local
    [param] on line 171. With three arguments [param] is [args[0]],
    whatever it is, and the assertion of line 171 rejects anything but
    a [Param]. *)
Definition dispatch (args : list pyval) : result (Param * beam) :=
  match args with
  | [a0; a1; a2; a3] =>
      match a3, a0 with
      | PParam param, _ => Ok (param, Origo)
      | _, PParam param => Ok (param, DivergingWave)
      | _, _ => Raise (UnboundLocalError "param")
      end
  | [a0; a1; a2] =>
      match a0 with
      | PParam param => Ok (param, PlaneWave)
      | _ => Raise (AssertionError "Wrong input arguments. PARAM must be a structure.")
      end
  | _ => Raise (UnboundLocalError "param")
  end.

Definition type_error {A} : M A :=
  raise (TypeError "unsupported operand type(s)").

(** Lines 173-190: element coordinates, default velocity, and the call
    of the external position helper. A field that [isfield] found is
    read without error. *)
Definition geometry : M (list R * list R * R) :=
  param <- get;;
  assert (isfield elements param) "PARAM.elements must contain the x- and y-locations of the transducer elements.";;;
  match elements param with
  | None => type_error
  | Some rows =>
      assert (Nat.eqb (length rows) 2) "PARAM.elements must have two rows that contain the x (1st row) and y (2nd row) coordinates of the transducer elements.";;;
      let xe := nth 0 rows [] in
      let ye := nth 1 rows [] in
      (if isfield c param then ret tt else modify (set_c 1540));;;
      param <- get;;
      match c param with
      | None => type_error
      | Some c =>
          _ <- lift (getElementPositions param);;
          ret (xe, ye, c)
      end
  end.

Definition tilt_ok (tiltx tilty : R) : bool :=
  Rltb (Rabs tiltx) (PI / 2) && Rltb (Rabs tilty) (PI / 2).

(** Lines 192-198. *)
Definition plane_wave (xe ye : list R) (cv : R) (args : list pyval)
  : M matrix :=
  let tiltx := arg 1 args in
  let tilty := arg 2 args in
  s <- lift (py_add tiltx tilty);;
  assert (isscalar s) "TILTx and TILTy must be two scalars.";;;
  match tiltx, tilty with
  | PFloat tiltx, PFloat tilty =>
      assert (tilt_ok tiltx tilty) "The tilt angles must verify |TILTx| and |TILTy| < pi/2";;;
      ret [map2 (fun x y => (x * sin tilty - y * sin tiltx) / cv) xe ye]
  | _, _ => type_error
  end.

(** Lines 248-262. [d] has one entry per element; [z0] is a column, so
    the product on line 262 broadcasts to one row per entry of [z0]. *)
Definition origo (xe ye : list R) (cv : R) (args : list pyval)
  : M matrix :=
  let x0 := to_column (arg 0 args) in
  let y0 := to_column (arg 1 args) in
  let z0 := to_column (arg 2 args) in
  assert (Nat.eqb (len x0) (len y0) && Nat.eqb (len y0) (len z0))
         "X0, Y0, and Z0 must have the same length.";;;
  d <- (if Nat.eqb (len x0) 1 then
          match x0, y0, z0 with
          | NumCol [x0], NumCol [y0], NumCol [z0] =>
              ret (map2 (fun x y =>
                           sqrt ((x - x0) ^ 2 + (y - y0) ^ 2 + z0 ^ 2))
                        xe ye)
          | _, _, _ => type_error
          end
        else if Nat.eqb (len x0) 2 then
          match x0, y0, z0 with
          | NumCol [x01; x02], NumCol [y01; y02], NumCol [z01; z02] =>
              let X := map2 (fun x y => (x, y, 0)) xe ye in
              let x1 := (x01, y01, z01) in
              let x2 := (x02, y02, z02) in
              ret (map (fun Xi => norm (cross (vsub Xi x1) (vsub Xi x2))
                                  / norm (vsub x2 x1)) X)
          | _, _, _ => type_error
          end
        else raise (UnboundLocalError "d"));;
  match z0 with
  | NumCol z0 => ret (map (fun zk => map (fun di => - di / cv * sign zk) d) z0)
  | ObjCol => type_error
  end.

(** The recursive call [txdelay3(x0,y0,z0,param)] of line 245: the
    callee works on the same [param] object. *)
Definition call (self : list pyval -> outcome) (mk : Param -> list pyval)
  : M matrix :=
  fun p => match self (mk p) with
           | (r, Some p') => (r, p')
           | (r, None) => (r, p)
           end.

Definition field (f : Param -> option R) : M R :=
  param <- get;;
  match f param with
  | Some v => ret v
  | None => type_error
  end.

Definition reduce (f : list R -> option R) (l : list R) : M R :=
  match f l with
  | Some v => ret v
  | None => raise (ValueError "zero-size array to reduction operation")
  end.

(** Lines 217-244: the virtual source of a diverging wave, for an
    aperture of width [l] and height [b]. *)
Definition virtual_source (tiltx tilty omega l b : R) : R * R * R :=
  let x := - sin tilty * cos tiltx in
  let y := sin tiltx in
  let z := - cos tilty * cos tiltx in
  let az := arctan2 y x in
  let el := arctan2 z (sqrt (x ^ 2 + y ^ 2)) in
  let myfun := fun r => Rabs (solidAngle r l b az el - omega) in
  let r := fminbound myfun 0 (2 * PI) (1 / 1000000) in
  let cos_el := cos el in
  let x0 := r * cos_el * cos az in
  let y0 := r * cos_el * sin az in
  let z0 := r * sin el in
  (x0, y0, z0).

(** Lines 200-245; the aperture dimensions of lines 229-230 are read
    before [virtual_source] needs them. *)
Definition diverging (self : list pyval -> outcome)
           (xe ye : list R) (cv : R) (args : list pyval) : M matrix :=
  let tiltx := arg 1 args in
  let tilty := arg 2 args in
  let omega := arg 3 args in
  s1 <- lift (py_add tiltx tilty);;
  s <- lift (py_add s1 omega);;
  assert (isscalar s) "TILTX, TILTY, and OMEGA must be scalar.";;;
  match tiltx, tilty, omega with
  | PFloat tiltx, PFloat tilty, PFloat omega =>
      assert (tilt_ok tiltx tilty) "The tilt angles must verify |TILTx| and |TILTy| < pi/2";;;
      assert (Rleb omega (2 * PI)) "The solid angle must be smaller than 2pi";;;
      assert (Rleb 0 omega) "The solid angle must be nonnegative";;;
      test <- lift (plaid_test xe ye);;
      assert test "The elements must be on a plaid grid with the 'Diverging wave' option, i.e. the element positions must form a plaid grid.";;;
      xmax <- reduce amax xe;;
      xmin <- reduce amin xe;;
      w <- field width;;
      let l := xmax - xmin + w in
      ymax <- reduce amax ye;;
      ymin <- reduce amin ye;;
      h <- field height;;
      let b := ymax - ymin + h in
      let '(x0, y0, z0) := virtual_source tiltx tilty omega l b in
      call self (fun param => [PFloat x0; PFloat y0; PFloat z0; PParam param])
  | _, _, _ => type_error
  end.

(** Lines 173-262: the delays before normalisation. *)
Definition raw_delays (self : list pyval -> outcome) (option : beam)
           (args : list pyval) : M matrix :=
  g <- geometry;;
  let '(xe, ye, cv) := g in
  match option with
  | PlaneWave => plane_wave xe ye cv args
  | DivergingWave => diverging self xe ye cv args
  | Origo => origo xe ye cv args
  end.

(** Lines 264-267. *)
Definition finish (delays : matrix) : M matrix :=
  delays <- lift (normalize delays);;
  modify (set_TXdelay delays);;;
  ret delays.

Definition txdelay3_body (self : list pyval -> outcome)
           (args : list pyval) : outcome :=
  match dispatch args with
  | Raise e => (Raise e, None)
  | Ok (param, option) =>
      let (r, param') :=
        (delays <- raw_delays self option args;; finish delays) param in
      (r, Some param')
  end.

(** The recursion of [txdelay3] has depth two: the inner call has four
    arguments with a [Param] last, which selects the focus law. *)
Definition txdelay3_inner : list pyval -> outcome :=
  txdelay3_body (fun _ => (Raise RecursionError, None)).

Definition txdelay3 : list pyval -> outcome :=
  txdelay3_body txdelay3_inner.

(** [txdelay3] stopped before line 264. *)
Definition txdelay3_raw (args : list pyval) : outcome :=
  match dispatch args with
  | Raise e => (Raise e, None)
  | Ok (param, option) =>
      let (r, param') := raw_delays txdelay3_inner option args param in
      (r, Some param')
  end.

End Txdelay3.


(** * Definitions for the statements *)

(** ** The delay laws as the specification words them *)

Module DelayLawSpec.

(** Point focus: [d_i = sqrt((x_i-x0)^2 + (y_i-y0)^2 + z0^2)] and
    [delay_i = - d_i / c * sign(z0)]. *)
Definition point_distance (x0 y0 z0 x y : R) : R :=
  sqrt ((x - x0) ^ 2 + (y - y0) ^ 2 + z0 ^ 2).
Definition point_delay (cv x0 y0 z0 x y : R) : R :=
  - point_distance x0 y0 z0 x y / cv * sign z0.

(** Plane wave: [delay_i = (x_i sin(tilty) - y_i sin(tiltx)) / c]. *)
Definition plane_delay (cv tiltx tilty x y : R) : R :=
  (x * sin tilty - y * sin tiltx) / cv.

(** Line focus: [d_i = |cross(X_i - P1, X_i - P2)| / |P2 - P1|] for the
    point [X_i = (x_i, y_i, 0)]. *)
Definition line_distance (P1 P2 : vec3) (x y : R) : R :=
  norm (cross (vsub (x, y, 0) P1) (vsub (x, y, 0) P2)) / norm (vsub P2 P1).

End DelayLawSpec.

(** ** The state of [param] *)

(** The velocity used by a call, and the state of [param] after line 184. *)
Definition velocity (p : Param) : R :=
  match c p with Some v => v | None => 1540 end.

Definition with_default_c (p : Param) : Param :=
  match c p with Some _ => p | None => set_c 1540 p end.

(** ** Example data *)

(** A position helper that succeeds, and a minimiser that answers the
    lower bound of its bracket. *)
Definition gep_ok (_ : Param) : result (list R * list R * list R * list R) :=
  Ok ([], [], [], []).
Definition fmin_lo (_ : R -> R) (lo _ _ : R) : R := lo.

(** Two elements on the x-axis, velocity 1540 m/s; and the same array
    without the field [c]. *)
Definition param_pair : Param :=
  mkParam (Some [[0; 1]; [0; 0]]) (Some 1540) None None None.
Definition param_pair_no_c : Param :=
  mkParam (Some [[0; 1]; [0; 0]]) None None None None.

(** The four-element square array of the specification's examples:
    elements at (+-1 mm, +-1 mm), velocity 1540 m/s. *)
Definition param_square : Param :=
  mkParam (Some [[-1 / 1000; 1 / 1000; -1 / 1000; 1 / 1000];
                 [-1 / 1000; -1 / 1000; 1 / 1000; 1 / 1000]])
          (Some 1540) None None None.

(** Four elements on a diagonal, two at (0,0) and two at (1,1): the
    positions (0,1) and (1,0) of the grid are missing. *)
Definition param_diag : Param :=
  mkParam (Some [[0; 0; 1; 1]; [0; 0; 1; 1]]) (Some 1540)
          (Some (1 / 2)) (Some (1 / 2)) None.

(** ** Predicates of the statements *)

(** A row of zeros, one per element. *)
Definition zeros {A} (l : list A) : list R := map (fun _ => 0) l.

(** Row minimum and the row shifted by it; a normalised row. *)
Definition row_min (row : list R) : R :=
  match amin row with Some m => m | None => 0 end.

Definition shifted (row : list R) : list R :=
  map (fun v => v - row_min row) row.

Definition normalized_row (row : list R) : Prop :=
  amin row = Some 0 /\ Forall (fun v => 0 <= v) row.

(** The three recognised shapes, as the specification lists them. *)
Definition recognized (args : list pyval) : bool :=
  match args with
  | [a0; _; _; a3] => isParam a3 || isParam a0
  | [a0; _; _] => isParam a0
  | _ => false
  end.

(** The errors by which the source reports wrong arguments: the
    [ValueError]s of lines 164 and 169 and the assertion of line 171. *)
Definition InvalidArguments (e : exn) : Prop :=
  e = ValueError "Wrong input arguments. PARAM must be a structure." \/
  e = ValueError "Wrong input arguments." \/
  e = AssertionError "Wrong input arguments. PARAM must be a structure.".

Definition MismatchedTargetLength (e : exn) : Prop :=
  e = AssertionError "X0, Y0, and Z0 must have the same length." \/
  e = ValueError "X0, Y0, and Z0 must have 1 or 2 elements.".

(** A plaid grid in the words of the specification: the coordinate pairs
    of the elements are, as a multiset, the Cartesian product of the
    distinct x-values and the distinct y-values. *)
Definition PlaidGrid (xe ye : list R) : Prop :=
  Permutation (combine xe ye) (list_prod (unique xe) (unique ye)).

(** The fields the caller supplies keep their value; an absent velocity
    may receive the default. *)
Definition frame (p p' : Param) : Prop :=
  elements p' = elements p /\ width p' = width p /\ height p' = height p /\
  (c p' = c p \/ (c p = None /\ c p' = Some 1540)).

(** The sentence of the specification: nothing but [TXdelay] is written. *)
Definition writes_only_TXdelay (p p' : Param) : Prop :=
  elements p' = elements p /\ c p' = c p /\
  width p' = width p /\ height p' = height p.

Definition frames {A} (m : M A) : Prop :=
  forall p r p', m p = (r, p') -> frame p p'.

Definition reads {A} (m : M A) : Prop :=
  forall p r p', m p = (r, p') -> p' = p.

(** A callee is framed when every focus-shaped call on [q] leaves [q]
    framed. *)
Definition framed_callee (self : list pyval -> outcome) : Prop :=
  forall x0 y0 z0 q r q',
    self [PFloat x0; PFloat y0; PFloat z0; PParam q] = (r, Some q') ->
    frame q q'.

(** ** The wrappers of lines 5-12 *)

Definition txdelay3Plane
           (gep : Param -> result (list R * list R * list R * list R))
           (fmin : (R -> R) -> R -> R -> R -> R)
           (param tiltx tilty : pyval) : outcome :=
  txdelay3 gep fmin [param; tiltx; tilty].

Definition txdelay3Diverging
           (gep : Param -> result (list R * list R * list R * list R))
           (fmin : (R -> R) -> R -> R -> R -> R)
           (param tiltx tilty omega : pyval) : outcome :=
  txdelay3 gep fmin [param; tiltx; tilty; omega].

Definition txdelay3Focused
           (gep : Param -> result (list R * list R * list R * list R))
           (fmin : (R -> R) -> R -> R -> R -> R)
           (param x y z : pyval) : outcome :=
  txdelay3 gep fmin [x; y; z; param].

(** The largest entry of a row, and the aperture dimensions of lines
    229-230. *)
Definition row_max (row : list R) : R :=
  match amax row with Some m => m | None => 0 end.

Definition aperture (row : list R) (pitch : R) : R :=
  row_max row - row_min row + pitch.

(** A two-by-two plaid grid with its points in row-major order. *)
Definition param_grid : Param :=
  mkParam (Some [[0; 1; 0; 1]; [0; 0; 1; 1]]) (Some 1540)
          (Some (1 / 2)) (Some (1 / 2)) None.

(** ** Predicates and data of the further properties *)

Definition nonempty_rows (d : matrix) : Prop := Forall (fun row => row <> []) d.

Definition keeps_TXdelay {A} (m : M A) : Prop :=
  forall p r p', m p = (r, p') -> TXdelay p' = TXdelay p.

(** Either [TXdelay] is as before, or delays with entries came back. *)
Definition writes_on_success (m : M matrix) : Prop :=
  forall p r p', m p = (r, p') ->
    TXdelay p' = TXdelay p \/ exists d, r = Ok d /\ nonempty_rows d.

Definition careful_callee (self : list pyval -> outcome) : Prop :=
  forall x0 y0 z0 q r q',
    self [PFloat x0; PFloat y0; PFloat z0; PParam q] = (r, Some q') ->
    TXdelay q' = TXdelay q \/ exists d, r = Ok d /\ nonempty_rows d.

(** The two-element array moved by (1, 2); a configuration without
    elements; an array without elements. *)
Definition param_pair_moved : Param :=
  mkParam (Some [map (fun x => x + 1) [0; 1]; map (fun y => y + 2) [0; 0]])
          (Some 1540) None None None.
Definition param_no_elements : Param :=
  mkParam None (Some 1540) None None None.
Definition param_empty : Param :=
  mkParam (Some [[]; []]) (Some 1540) None None None.

(** A minimiser that answers the upper bound of its bracket. *)
Definition fmin_hi (_ : R -> R) (_ hi _ : R) : R := hi.

(** * Properties *)

(** ** Monad steps *)

Lemma bind_ok {A B} (m : M A) (k : A -> M B) p a p' :
  m p = (Ok a, p') -> bind m k p = k a p'.
Proof. intros H; unfold bind; now rewrite H. Qed.

Lemma bind_inv {A B} (m : M A) (k : A -> M B) p b p' :
  bind m k p = (Ok b, p') ->
  exists a p1, m p = (Ok a, p1) /\ k a p1 = (Ok b, p').
Proof.
  unfold bind; destruct (m p) as [[a|e] p1]; intros H.
  - now exists a, p1.
  - discriminate.
Qed.

Lemma assert_inv (b : bool) msg p u p' :
  assert b msg p = (Ok u, p') -> b = true /\ p' = p.
Proof.
  unfold assert; destruct b; cbn; intros H; inversion H; auto.
Qed.

Lemma lift_inv {A} (r : result A) p a p' :
  lift r p = (Ok a, p') -> r = Ok a /\ p' = p.
Proof. unfold lift; intros H; inversion H; auto. Qed.

(** ** Row minimum and normalisation *)

Lemma amin_nil_iff (l : list R) : amin l = None <-> l = [].
Proof.
  destruct l as [|x t]; cbn; [tauto|].
  destruct (amin t); split; intros H; discriminate.
Qed.

Lemma amin_lower (l : list R) m :
  amin l = Some m -> Forall (fun v => m <= v) l.
Proof.
  revert m; induction l as [|x t IH]; intros m H; [constructor|].
  cbn in H. destruct (amin t) as [m'|] eqn:E.
  - inversion H; subst m; clear H. constructor.
    + apply Rmin_l.
    + specialize (IH m' eq_refl).
      eapply Forall_impl; [|exact IH]. cbn; intros v Hv.
      pose proof (Rmin_r x m'); lra.
  - inversion H; subst m. apply amin_nil_iff in E; subst t.
    constructor; [lra|constructor].
Qed.

Lemma amin_In (l : list R) m : amin l = Some m -> In m l.
Proof.
  revert m; induction l as [|x t IH]; intros m H; [discriminate|].
  cbn in H. destruct (amin t) as [m'|] eqn:E.
  - inversion H; subst m; clear H.
    unfold Rmin; destruct (Rle_dec x m'); [now left|right; now apply IH].
  - inversion H; now left.
Qed.

Lemma amin_map_sub (l : list R) m k :
  amin l = Some m -> amin (map (fun v => v - k) l) = Some (m - k).
Proof.
  revert m; induction l as [|x t IH]; intros m H; [discriminate|].
  cbn in *. destruct (amin t) as [m'|] eqn:E.
  - rewrite (IH m' eq_refl). inversion H; subst m. f_equal.
    unfold Rmin; destruct (Rle_dec x m'), (Rle_dec (x - k) (m' - k)); lra.
  - apply amin_nil_iff in E; subst t; cbn. now inversion H.
Qed.

Lemma shift_min_ok (row row' : list R) :
  shift_min row = Ok row' ->
  row' = shifted row /\ row <> [] /\
  amin row' = Some 0 /\ Forall (fun v => 0 <= v) row'.
Proof.
  unfold shift_min, shifted, row_min.
  destruct (amin row) as [m|] eqn:E; [|discriminate].
  intros H; inversion H; subst row'; clear H. repeat split.
  - intros ->; discriminate.
  - rewrite (amin_map_sub _ _ m E). f_equal; lra.
  - apply Forall_map. eapply Forall_impl; [|exact (amin_lower _ _ E)].
    cbn; intros; lra.
Qed.

Lemma normalize_ok (raw d : matrix) :
  normalize raw = Ok d ->
  d = map shifted raw /\ Forall normalized_row d.
Proof.
  revert d; induction raw as [|row rest IH]; cbn; intros d H.
  - inversion H; split; [reflexivity|constructor].
  - destruct (shift_min row) as [row'|] eqn:E; [|discriminate].
    destruct (normalize rest) as [rest'|]; [|discriminate].
    inversion H; subst d; clear H.
    destruct (IH rest' eq_refl) as [-> HF].
    apply shift_min_ok in E as (-> & _ & Hm & Hp).
    split; [reflexivity|constructor; [split|]; assumption].
Qed.

Lemma normalize_total (raw : matrix) :
  Forall (fun row => row <> []) raw -> normalize raw = Ok (map shifted raw).
Proof.
  induction 1 as [|row rest Hrow _ IH]; cbn; [reflexivity|].
  unfold shift_min, shifted at 1, row_min.
  destruct (amin row) as [m|] eqn:E.
  - now rewrite IH.
  - apply amin_nil_iff in E; contradiction.
Qed.

Lemma shifted_normalized (row : list R) :
  normalized_row row -> shifted row = row.
Proof.
  intros [Hm _]. unfold shifted, row_min; rewrite Hm.
  rewrite <- (map_id row) at 2. apply map_ext; intros; lra.
Qed.

(** ** Structure of a call *)

Section Structure.

Variable gep : Param -> result (list R * list R * list R * list R).
Variable fmin : (R -> R) -> R -> R -> R -> R.

(** [txdelay3] satisfies the recursive equation of the Python function:
    the callee of line 245 is [txdelay3] itself. *)
Lemma txdelay3_unfold (args : list pyval) :
  txdelay3 gep fmin args = txdelay3_body gep fmin (txdelay3 gep fmin) args.
Proof.
  unfold txdelay3 at 1. unfold txdelay3_body.
  destruct (dispatch args) as [[param option]|e]; [|reflexivity].
  destruct option; reflexivity.
Qed.

(** A successful call is the raw stage followed by the row-wise shift,
    and it stores what it returns. *)
Lemma txdelay3_success (args : list pyval) d st :
  txdelay3 gep fmin args = (Ok d, st) ->
  exists raw p1,
    txdelay3_raw gep fmin args = (Ok raw, Some p1) /\
    normalize raw = Ok d /\
    st = Some (set_TXdelay d p1).
Proof.
  unfold txdelay3, txdelay3_body, txdelay3_raw.
  destruct (dispatch args) as [[param option]|e]; [|discriminate].
  unfold bind at 1.
  destruct (raw_delays gep fmin (txdelay3_inner gep fmin) option args param)
    as [[raw|e] p1]; [|discriminate].
  unfold finish, bind, lift, modify, ret.
  destruct (normalize raw) as [d'|e] eqn:E; intros H; inversion H; subst.
  now exists raw, p1.
Qed.

Lemma txdelay3_of_raw (args : list pyval) raw p1 :
  txdelay3_raw gep fmin args = (Ok raw, Some p1) ->
  Forall (fun row => row <> []) raw ->
  txdelay3 gep fmin args
  = (Ok (map shifted raw), Some (set_TXdelay (map shifted raw) p1)).
Proof.
  unfold txdelay3, txdelay3_body, txdelay3_raw.
  destruct (dispatch args) as [[param option]|e]; [|discriminate].
  unfold bind at 1.
  destruct (raw_delays gep fmin (txdelay3_inner gep fmin) option args param)
    as [[raw'|e] p1']; intros H Hne; inversion H; subst.
  unfold finish, bind, lift, modify, ret.
  now rewrite (normalize_total _ Hne).
Qed.

End Structure.

(** ** What each branch returns *)

Lemma origo_rows xe ye cv args p raw p' :
  origo xe ye cv args p = (Ok raw, p') -> raw <> [] /\ p' = p.
Proof.
  unfold origo.
  intros H. apply bind_inv in H as (u & p1 & Ha & H).
  apply assert_inv in Ha as [Hlen ->].
  apply bind_inv in H as (d & p2 & Hd & H).
  destruct (to_column (arg 2 args)) as [zs|] eqn:Ez; [|discriminate].
  inversion H; subst; clear H.
  apply andb_prop in Hlen as [H01 H12].
  apply Nat.eqb_eq in H01, H12. cbn [len] in H12.
  destruct zs as [|z zs].
  - cbn in H12. rewrite H01, H12 in Hd. cbn in Hd. discriminate.
  - split; [discriminate|].
    destruct (len (to_column (arg 0 args)) =? 1)%nat.
    + destruct (to_column (arg 0 args)) as [[|? [|? ?]]|],
        (to_column (arg 1 args)) as [[|? [|? ?]]|], zs as [|? ?];
        inversion Hd; reflexivity.
    + destruct (len (to_column (arg 0 args)) =? 2)%nat; [|discriminate].
      destruct (to_column (arg 0 args)) as [[|? [|? [|? ?]]]|],
        (to_column (arg 1 args)) as [[|? [|? [|? ?]]]|], zs as [|? [|? ?]];
        inversion Hd; reflexivity.
Qed.

Lemma plane_wave_rows xe ye cv args p raw p' :
  plane_wave xe ye cv args p = (Ok raw, p') -> raw <> [] /\ p' = p.
Proof.
  unfold plane_wave. intros H.
  apply bind_inv in H as (s & p1 & Hs & H). apply lift_inv in Hs as [Hs ->].
  apply bind_inv in H as (u & p1 & Ha & H). apply assert_inv in Ha as [_ ->].
  destruct (arg 1 args), (arg 2 args); try discriminate.
  apply bind_inv in H as (u' & p1 & Ha & H). apply assert_inv in Ha as [_ ->].
  inversion H; subst. split; [discriminate|reflexivity].
Qed.

Lemma reduce_inv f l p v p' :
  reduce f l p = (Ok v, p') -> f l = Some v /\ p' = p.
Proof.
  unfold reduce. destruct (f l); intros H; inversion H; auto.
Qed.

Lemma field_inv f p v p' :
  field f p = (Ok v, p') -> f p = Some v /\ p' = p.
Proof.
  unfold field, bind, get. destruct (f p); intros H; inversion H; auto.
Qed.

Section Branches.

Variable gep : Param -> result (list R * list R * list R * list R).
Variable fmin : (R -> R) -> R -> R -> R -> R.

(** The diverging-wave branch succeeds only through the call of line
    245, with the virtual source as a point focus. *)
Lemma diverging_inv self xe ye cv args p raw p' :
  diverging fmin self xe ye cv args p = (Ok raw, p') ->
  exists tiltx tilty omega xmax xmin w ymax ymin h,
    arg 1 args = PFloat tiltx /\ arg 2 args = PFloat tilty /\
    arg 3 args = PFloat omega /\
    tilt_ok tiltx tilty = true /\
    Rleb omega (2 * PI) = true /\ Rleb 0 omega = true /\
    plaid_test xe ye = Ok true /\
    amax xe = Some xmax /\ amin xe = Some xmin /\ width p = Some w /\
    amax ye = Some ymax /\ amin ye = Some ymin /\ height p = Some h /\
    let '(x0, y0, z0) :=
      virtual_source fmin tiltx tilty omega
                     (xmax - xmin + w) (ymax - ymin + h) in
    call self (fun param => [PFloat x0; PFloat y0; PFloat z0; PParam param]) p
    = (Ok raw, p').
Proof.
  unfold diverging. intros H.
  apply bind_inv in H as (s1 & p1 & Hs & H). apply lift_inv in Hs as [Hs ->].
  apply bind_inv in H as (s & p1 & Hs' & H). apply lift_inv in Hs' as [Hs' ->].
  apply bind_inv in H as (u & p1 & Ha & H). apply assert_inv in Ha as [_ ->].
  destruct (arg 1 args) as [tiltx| |], (arg 2 args) as [tilty| |],
    (arg 3 args) as [omega| |]; try discriminate.
  apply bind_inv in H as (u1 & q & Ha & H); apply assert_inv in Ha as [Ht ->].
  apply bind_inv in H as (u2 & q & Ha & H); apply assert_inv in Ha as [Ho1 ->].
  apply bind_inv in H as (u3 & q & Ha & H); apply assert_inv in Ha as [Ho2 ->].
  apply bind_inv in H as (t & q & Hp & H). apply lift_inv in Hp as [Hp ->].
  apply bind_inv in H as (u4 & q & Ha & H); apply assert_inv in Ha as [-> ->].
  apply bind_inv in H as (xmax & q & Hr & H); apply reduce_inv in Hr as [Hxmax ->].
  apply bind_inv in H as (xmin & q & Hr & H); apply reduce_inv in Hr as [Hxmin ->].
  apply bind_inv in H as (w & q & Hr & H); apply field_inv in Hr as [Hw ->].
  apply bind_inv in H as (ymax & q & Hr & H); apply reduce_inv in Hr as [Hymax ->].
  apply bind_inv in H as (ymin & q & Hr & H); apply reduce_inv in Hr as [Hymin ->].
  apply bind_inv in H as (h & q & Hr & H); apply field_inv in Hr as [Hh ->].
  exists tiltx, tilty, omega, xmax, xmin, w, ymax, ymin, h.
  repeat (split; [assumption || reflexivity|]).
  exact H.
Qed.

(** Every successful call returns at least one row. *)
Lemma body_rows self args d st :
  (forall a r s, self a = (Ok r, s) -> r <> []) ->
  txdelay3_body gep fmin self args = (Ok d, st) -> d <> [].
Proof.
  intros Hself. unfold txdelay3_body.
  destruct (dispatch args) as [[param option]|e]; [|discriminate].
  destruct (bind _ _ _) as [r p'] eqn:E. intros H; inversion H; subst.
  apply bind_inv in E as (raw & p1 & Hraw & Hfin).
  assert (Hne : raw <> []).
  { unfold raw_delays in Hraw.
    apply bind_inv in Hraw as ([[xe ye] cv] & p2 & _ & Hraw).
    destruct option.
    - now apply origo_rows in Hraw.
    - apply diverging_inv in Hraw
        as (tx & ty & om & xmax & xmin & w & ymax & ymin & h & Hcall).
      do 13 destruct Hcall as [_ Hcall].
      destruct (virtual_source _ _ _ _ _ _) as [[vx vy] vz].
      unfold call in Hcall.
      destruct (self _) as [r [q|]] eqn:Es;
        inversion Hcall; subst; eapply Hself; exact Es.
    - now apply plane_wave_rows in Hraw. }
  unfold finish in Hfin.
  apply bind_inv in Hfin as (d' & p2 & Hn & Hfin).
  apply lift_inv in Hn as [Hn ->].
  unfold bind, modify, ret in Hfin. inversion Hfin; subst.
  apply normalize_ok in Hn as [-> _].
  destruct raw; [contradiction|discriminate].
Qed.

Lemma txdelay3_rows args d st :
  txdelay3 gep fmin args = (Ok d, st) -> d <> [].
Proof.
  apply body_rows. intros a r s.
  apply body_rows. intros; discriminate.
Qed.

End Branches.

(** ** C1: output normalisation *)

(** C1. Every successful call, whatever the beam mode, returns the delays
    computed by the mode (the value of [delays] before line 264) with
    every row shifted by its minimum: the result has at least one row,
    the minimum of every row is exactly 0, it is attained, and every
    entry is nonnegative. *)
Theorem txdelay3_normalized
        (gep : Param -> result (list R * list R * list R * list R))
        (fmin : (R -> R) -> R -> R -> R -> R)
        (args : list pyval) (d : matrix) (st : option Param) :
  txdelay3 gep fmin args = (Ok d, st) ->
  exists raw p1,
    txdelay3_raw gep fmin args = (Ok raw, Some p1) /\
    d = map (fun row => map (fun v => v - row_min row) row) raw /\
    d <> [] /\
    Forall (fun row => amin row = Some 0 /\ In 0 row /\
                       Forall (fun v => 0 <= v) row) d.
Proof.
  intros H. pose proof (txdelay3_rows _ _ _ _ _ H) as Hne.
  apply txdelay3_success in H as (raw & p1 & Hraw & Hn & _).
  apply normalize_ok in Hn as [-> HF].
  exists raw, p1. repeat split; try assumption.
  eapply Forall_impl; [|exact HF]. intros row [Hm Hp].
  repeat split; [assumption|now apply amin_In|assumption].
Qed.

Section Laws.

Variable gep : Param -> result (list R * list R * list R * list R).
Variable fmin : (R -> R) -> R -> R -> R -> R.

Lemma geometry_run p xe ye :
  elements p = Some [xe; ye] ->
  is_ok (gep (with_default_c p)) = true ->
  geometry gep p = (Ok (xe, ye, velocity p), with_default_c p).
Proof.
  intros He Hg. unfold geometry, bind at 1, get, isfield. rewrite He. cbn.
  unfold velocity, with_default_c in *.
  destruct (c p) as [v|] eqn:Ec; unfold bind, lift, ret, get, modify; cbn.
  - rewrite Ec. destruct (gep p); [reflexivity|discriminate].
  - destruct (gep (set_c 1540 p)); [reflexivity|discriminate].
Qed.

Lemma raw_delays_run self option args p xe ye :
  elements p = Some [xe; ye] ->
  is_ok (gep (with_default_c p)) = true ->
  raw_delays gep fmin self option args p
  = match option with
    | PlaneWave => plane_wave xe ye (velocity p) args (with_default_c p)
    | DivergingWave =>
        diverging fmin self xe ye (velocity p) args (with_default_c p)
    | Origo => origo xe ye (velocity p) args (with_default_c p)
    end.
Proof.
  intros He Hg. unfold raw_delays. unfold bind at 1.
  rewrite (geometry_run _ _ _ He Hg). destruct option; reflexivity.
Qed.

Lemma sign_opp (z : R) : sign (- z) = - sign z.
Proof.
  unfold sign.
  destruct (Rlt_dec 0 (- z)), (Rlt_dec (- z) 0), (Rlt_dec 0 z), (Rlt_dec z 0);
    lra.
Qed.

Lemma sign_0 : sign 0 = 0.
Proof.
  unfold sign. destruct (Rlt_dec 0 0); [lra|reflexivity].
Qed.

Lemma point_delay_opp cv x0 y0 z0 x y :
  DelayLawSpec.point_delay cv x0 y0 (- z0) x y
  = - DelayLawSpec.point_delay cv x0 y0 z0 x y.
Proof.
  unfold DelayLawSpec.point_delay, DelayLawSpec.point_distance.
  rewrite sign_opp. replace ((- z0) ^ 2) with (z0 ^ 2) by ring.
  unfold Rdiv. ring.
Qed.

Lemma map2_ext {A B C} (f g : A -> B -> C) a b :
  (forall x y, f x y = g x y) -> map2 f a b = map2 g a b.
Proof.
  intros H; revert b; induction a as [|x a IH]; intros [|y b]; cbn;
    try reflexivity. now rewrite H, IH.
Qed.

Lemma map2_length {A B C} (f : A -> B -> C) a b :
  length a = length b -> length (map2 f a b) = length a.
Proof.
  revert b; induction a as [|x a IH]; intros [|y b]; cbn; intros H;
    try reflexivity; try discriminate. now rewrite IH by lia.
Qed.

Lemma nth_map2 {A B C} (f : A -> B -> C) a b i da db dc :
  length a = length b -> (i < length a)%nat ->
  nth i (map2 f a b) dc = f (nth i a da) (nth i b db).
Proof.
  revert b i; induction a as [|x a IH]; intros [|y b] i; cbn; intros H Hi;
    try lia; try discriminate.
  destruct i; [reflexivity|]. apply IH; lia.
Qed.

Lemma map_map2 {A B C D} (g : C -> D) (f : A -> B -> C) a b :
  map g (map2 f a b) = map2 (fun x y => g (f x y)) a b.
Proof.
  revert b; induction a as [|x a IH]; intros [|y b]; cbn; try reflexivity.
  now rewrite IH.
Qed.

(** The raw stage of a point-focus call. *)
Lemma point_focus_raw p xe ye a0 a1 a2 x0 y0 z0 :
  elements p = Some [xe; ye] ->
  is_ok (gep (with_default_c p)) = true ->
  to_column a0 = NumCol [x0] ->
  to_column a1 = NumCol [y0] ->
  to_column a2 = NumCol [z0] ->
  txdelay3_raw gep fmin [a0; a1; a2; PParam p]
  = (Ok [map2 (DelayLawSpec.point_delay (velocity p) x0 y0 z0) xe ye],
     Some (with_default_c p)).
Proof.
  intros He Hg H0 H1 H2. unfold txdelay3_raw. cbn [dispatch].
  rewrite (raw_delays_run _ _ _ _ _ _ He Hg).
  unfold origo, arg. cbn [nth]. rewrite H0, H1, H2. cbn.
  unfold bind, ret. cbn. rewrite map_map2. reflexivity.
Qed.

End Laws.


(** ** Rows of zeros *)

Section Zeros.

Lemma amin_zeros {A} (l : list A) : l <> [] -> amin (zeros l) = Some 0.
Proof.
  induction l as [|x t IH]; intros H; [contradiction|]. cbn.
  destruct t as [|y t]; [reflexivity|].
  unfold zeros in IH. rewrite IH by discriminate.
  f_equal. unfold Rmin. destruct (Rle_dec 0 0); reflexivity.
Qed.

Lemma shifted_zeros {A} (l : list A) : l <> [] -> shifted (zeros l) = zeros l.
Proof.
  intros H. apply shifted_normalized. split; [now apply amin_zeros|].
  unfold zeros. apply Forall_map, Forall_forall. intros; lra.
Qed.

Lemma map2_zeros (f : R -> R -> R) (a b : list R) :
  length a = length b -> (forall x y, f x y = 0) -> map2 f a b = zeros a.
Proof.
  intros Hl Hf. revert b Hl; induction a as [|x a IH]; intros [|y b] Hl;
    cbn in *; try reflexivity; try discriminate.
  rewrite Hf. f_equal. apply IH; lia.
Qed.

Lemma zeros_nonempty {A} (l : list A) : l <> [] -> zeros l <> [].
Proof. destruct l; [contradiction|discriminate]. Qed.

End Zeros.

(** ** C2: the point-focus law *)

(** C2. For a point focus [(x0, y0, z0)] the delays before normalisation
    are one row whose entry for element [i] is
    [- sqrt((x_i-x0)^2 + (y_i-y0)^2 + z0^2) / c * sign(z0)], and the call
    with [- z0] gives the opposite of every entry. *)
Theorem point_focus_delays
        (gep : Param -> result (list R * list R * list R * list R))
        (fmin : (R -> R) -> R -> R -> R -> R)
        (p : Param) (xe ye : list R) (x0 y0 z0 : R) :
  elements p = Some [xe; ye] ->
  length xe = length ye ->
  is_ok (gep (with_default_c p)) = true ->
  exists row,
    txdelay3_raw gep fmin [PFloat x0; PFloat y0; PFloat z0; PParam p]
    = (Ok [row], Some (with_default_c p)) /\
    length row = length xe /\
    (forall i, (i < length xe)%nat ->
       nth i row 0
       = - sqrt ((nth i xe 0 - x0) ^ 2 + (nth i ye 0 - y0) ^ 2 + z0 ^ 2)
         / velocity p * sign z0) /\
    txdelay3_raw gep fmin [PFloat x0; PFloat y0; PFloat (- z0); PParam p]
    = (Ok [map Ropp row], Some (with_default_c p)).
Proof.
  intros He Hl Hg.
  exists (map2 (DelayLawSpec.point_delay (velocity p) x0 y0 z0) xe ye).
  split; [now apply point_focus_raw|].
  split; [now apply map2_length|].
  split.
  - intros i Hi. now rewrite (nth_map2 _ _ _ _ 0 0 0 Hl Hi).
  - rewrite (point_focus_raw gep fmin p xe ye (PFloat x0) (PFloat y0)
               (PFloat (- z0)) x0 y0 (- z0) He Hg eq_refl eq_refl eq_refl).
    rewrite map_map2. do 3 f_equal.
    apply map2_ext. intros; apply point_delay_opp.
Qed.

Lemma point_focus_delays_witness :
  exists row,
    txdelay3_raw gep_ok fmin_lo [PFloat 0; PFloat 0; PFloat 1; PParam param_pair]
    = (Ok [row], Some param_pair) /\
    length row = 2%nat.
Proof.
  destruct (point_focus_delays gep_ok fmin_lo param_pair [0; 1] [0; 0] 0 0 1
              eq_refl eq_refl eq_refl) as (row & Hrun & Hlen & _).
  exists row. split; [exact Hrun | exact Hlen].
Defined.

(** ** C10: a focus in the plane of the array *)

Lemma in_plane_run
      (gep : Param -> result (list R * list R * list R * list R))
      (fmin : (R -> R) -> R -> R -> R -> R)
      (p : Param) (xe ye : list R) (x0 y0 : R) :
  elements p = Some [xe; ye] ->
  length xe = length ye ->
  xe <> [] ->
  is_ok (gep (with_default_c p)) = true ->
  txdelay3_raw gep fmin [PFloat x0; PFloat y0; PFloat 0; PParam p]
  = (Ok [zeros xe], Some (with_default_c p)) /\
  txdelay3 gep fmin [PFloat x0; PFloat y0; PFloat 0; PParam p]
  = (Ok [zeros xe], Some (set_TXdelay [zeros xe] (with_default_c p))).
Proof.
  intros He Hl Hne Hg.
  assert (Hraw : txdelay3_raw gep fmin [PFloat x0; PFloat y0; PFloat 0; PParam p]
                 = (Ok [zeros xe], Some (with_default_c p))).
  { rewrite (point_focus_raw gep fmin p xe ye (PFloat x0) (PFloat y0)
               (PFloat 0) x0 y0 0 He Hg eq_refl eq_refl eq_refl).
    do 3 f_equal. apply map2_zeros; [assumption|].
    intros x y. unfold DelayLawSpec.point_delay. rewrite sign_0. ring. }
  split; [exact Hraw|].
  rewrite (txdelay3_of_raw gep fmin _ _ _ Hraw).
  - cbn [map]. now rewrite shifted_zeros.
  - constructor; [now apply zeros_nonempty|constructor].
Qed.

Lemma pair_in_plane_run (x0 y0 : R) :
  txdelay3 gep_ok fmin_lo [PFloat x0; PFloat y0; PFloat 0; PParam param_pair]
  = (Ok [[0; 0]], Some (set_TXdelay [[0; 0]] param_pair)).
Proof.
  refine (proj2 (in_plane_run gep_ok fmin_lo param_pair [0; 1] [0; 0]
                   x0 y0 eq_refl eq_refl _ eq_refl)).
  discriminate.
Qed.

(** C10. A point focus with [z0 = 0] does not fail on an array of at
    least one element: every delay before normalisation is 0, whatever
    the element positions and [x0], [y0], and the returned row is all
    zeros. *)
Theorem point_focus_in_plane
        (gep : Param -> result (list R * list R * list R * list R))
        (fmin : (R -> R) -> R -> R -> R -> R)
        (p : Param) (xe ye : list R) (x0 y0 : R) :
  elements p = Some [xe; ye] ->
  length xe = length ye ->
  xe <> [] ->
  is_ok (gep (with_default_c p)) = true ->
  txdelay3_raw gep fmin [PFloat x0; PFloat y0; PFloat 0; PParam p]
  = (Ok [zeros xe], Some (with_default_c p)) /\
  txdelay3 gep fmin [PFloat x0; PFloat y0; PFloat 0; PParam p]
  = (Ok [zeros xe], Some (set_TXdelay [zeros xe] (with_default_c p))).
Proof. exact (in_plane_run gep fmin p xe ye x0 y0). Qed.

Lemma point_focus_in_plane_witness :
  txdelay3 gep_ok fmin_lo [PFloat 3; PFloat 4; PFloat 0; PParam param_pair]
  = (Ok [[0; 0]], Some (set_TXdelay [[0; 0]] param_pair)).
Proof.
  refine (proj2 (point_focus_in_plane gep_ok fmin_lo param_pair [0; 1] [0; 0]
                   3 4 eq_refl eq_refl _ eq_refl)).
  discriminate.
Defined.


(** A run of [txdelay3] for the normalisation theorem. *)
Lemma txdelay3_normalized_witness :
  exists raw p1,
    txdelay3_raw gep_ok fmin_lo
                 [PFloat 3; PFloat 4; PFloat 0; PParam param_pair]
    = (Ok raw, Some p1) /\
    [[0; 0]] = map (fun row => map (fun v => v - row_min row) row) raw /\
    [[0; 0]] <> [] /\
    Forall (fun row => amin row = Some 0 /\ In 0 row /\
                       Forall (fun v => 0 <= v) row)
           [[0; 0]].
Proof.
  exact (txdelay3_normalized gep_ok fmin_lo
           [PFloat 3; PFloat 4; PFloat 0; PParam param_pair]
           [[0; 0]] _ (pair_in_plane_run 3 4)).
Defined.

(** ** C3: the plane-wave law *)

Lemma Rltb_true (x y : R) : x < y -> Rltb x y = true.
Proof. intros H; unfold Rltb; destruct (Rlt_dec x y); [reflexivity|contradiction]. Qed.

Lemma Rleb_true (x y : R) : x <= y -> Rleb x y = true.
Proof. intros H; unfold Rleb; destruct (Rle_dec x y); [reflexivity|contradiction]. Qed.

Lemma tilt_ok_true (tiltx tilty : R) :
  Rabs tiltx < PI / 2 -> Rabs tilty < PI / 2 -> tilt_ok tiltx tilty = true.
Proof.
  intros Hx Hy. unfold tilt_ok. now rewrite !Rltb_true.
Qed.

Lemma tilt_ok_0 : tilt_ok 0 0 = true.
Proof.
  apply tilt_ok_true; rewrite Rabs_R0; pose proof PI_RGT_0; lra.
Qed.

Lemma plane_wave_raw
      (gep : Param -> result (list R * list R * list R * list R))
      (fmin : (R -> R) -> R -> R -> R -> R)
      (p : Param) (xe ye : list R) (tiltx tilty : R) :
  elements p = Some [xe; ye] ->
  is_ok (gep (with_default_c p)) = true ->
  tilt_ok tiltx tilty = true ->
  txdelay3_raw gep fmin [PParam p; PFloat tiltx; PFloat tilty]
  = (Ok [map2 (DelayLawSpec.plane_delay (velocity p) tiltx tilty) xe ye],
     Some (with_default_c p)).
Proof.
  intros He Hg Ht. unfold txdelay3_raw. cbn [dispatch].
  rewrite (raw_delays_run _ _ _ _ _ _ _ _ He Hg).
  unfold plane_wave, arg. cbn [nth py_add]. unfold bind, lift. cbn.
  rewrite Ht. reflexivity.
Qed.

Lemma plane_wave_zero_run
      (gep : Param -> result (list R * list R * list R * list R))
      (fmin : (R -> R) -> R -> R -> R -> R)
      (p : Param) (xe ye : list R) :
  elements p = Some [xe; ye] ->
  length xe = length ye ->
  xe <> [] ->
  is_ok (gep (with_default_c p)) = true ->
  txdelay3 gep fmin [PParam p; PFloat 0; PFloat 0]
  = (Ok [zeros xe], Some (set_TXdelay [zeros xe] (with_default_c p))).
Proof.
  intros He Hl Hne Hg.
  assert (Hraw : txdelay3_raw gep fmin [PParam p; PFloat 0; PFloat 0]
                 = (Ok [zeros xe], Some (with_default_c p))).
  { rewrite (plane_wave_raw gep fmin p xe ye 0 0 He Hg tilt_ok_0).
    do 3 f_equal. apply map2_zeros; [assumption|].
    intros x y. unfold DelayLawSpec.plane_delay. rewrite sin_0.
    unfold Rdiv. ring. }
  rewrite (txdelay3_of_raw gep fmin _ _ _ Hraw).
  - cbn [map]. now rewrite shifted_zeros.
  - constructor; [now apply zeros_nonempty|constructor].
Qed.

(** C3. For a plane wave with scalar tilts of absolute value below
    [pi/2], the delays before normalisation are one row whose entry for
    element [i] is [(x_i sin(tilty) - y_i sin(tiltx)) / c]; with both
    tilts 0 the returned row is all zeros for every array of at least
    one element. *)
Theorem plane_wave_delays
        (gep : Param -> result (list R * list R * list R * list R))
        (fmin : (R -> R) -> R -> R -> R -> R)
        (p : Param) (xe ye : list R) (tiltx tilty : R) :
  elements p = Some [xe; ye] ->
  length xe = length ye ->
  is_ok (gep (with_default_c p)) = true ->
  Rabs tiltx < PI / 2 ->
  Rabs tilty < PI / 2 ->
  (exists row,
      txdelay3_raw gep fmin [PParam p; PFloat tiltx; PFloat tilty]
      = (Ok [row], Some (with_default_c p)) /\
      length row = length xe /\
      forall i, (i < length xe)%nat ->
        nth i row 0
        = (nth i xe 0 * sin tilty - nth i ye 0 * sin tiltx) / velocity p) /\
  (xe <> [] ->
   txdelay3 gep fmin [PParam p; PFloat 0; PFloat 0]
   = (Ok [zeros xe], Some (set_TXdelay [zeros xe] (with_default_c p)))).
Proof.
  intros He Hl Hg Hx Hy. split.
  - exists (map2 (DelayLawSpec.plane_delay (velocity p) tiltx tilty) xe ye).
    split; [apply plane_wave_raw; auto using tilt_ok_true|].
    split; [now apply map2_length|].
    intros i Hi. now rewrite (nth_map2 _ _ _ _ 0 0 0 Hl Hi).
  - intros Hne. now apply (plane_wave_zero_run gep fmin p xe ye).
Qed.

Lemma plane_wave_delays_witness :
  txdelay3 gep_ok fmin_lo [PParam param_pair; PFloat 0; PFloat 0]
  = (Ok [[0; 0]], Some (set_TXdelay [[0; 0]] param_pair)).
Proof.
  assert (H0 : Rabs 0 < PI / 2)
    by (rewrite Rabs_R0; pose proof PI_RGT_0; lra).
  refine (proj2 (plane_wave_delays gep_ok fmin_lo param_pair [0; 1] [0; 0]
                   0 0 eq_refl eq_refl eq_refl H0 H0) _).
  discriminate.
Defined.

(** ** C4: the solid angle *)

(** C4. [solidAngle] is the function [Omega] of the specification:
    [w(L1,B1) + w(L1,B2) - w(L2,B1) - w(L2,B2)] with
    [w(L,B) = arcsin(L B / hypot(L,H) / hypot(B,H))] and [L1], [L2],
    [B1], [B2], [H] as given there; its value depends on
    [(r, l, b, az, el)] only. *)
Theorem solidAngle_formula (r l b az el : R) :
  solidAngle r l b az el = SolidAngleSpec.Omega r l b az el /\
  solidAngle r l b az el
  = asin ((l / 2 + r * cos el * cos az) * (b / 2 + r * cos el * sin az)
          / hypot (l / 2 + r * cos el * cos az) (r * sin el)
          / hypot (b / 2 + r * cos el * sin az) (r * sin el))
    + asin ((l / 2 + r * cos el * cos az) * (b / 2 - r * cos el * sin az)
            / hypot (l / 2 + r * cos el * cos az) (r * sin el)
            / hypot (b / 2 - r * cos el * sin az) (r * sin el))
    - asin ((- l / 2 + r * cos el * cos az) * (b / 2 + r * cos el * sin az)
            / hypot (- l / 2 + r * cos el * cos az) (r * sin el)
            / hypot (b / 2 + r * cos el * sin az) (r * sin el))
    - asin ((- l / 2 + r * cos el * cos az) * (b / 2 - r * cos el * sin az)
            / hypot (- l / 2 + r * cos el * cos az) (r * sin el)
            / hypot (b / 2 - r * cos el * sin az) (r * sin el)).
Proof. split; reflexivity. Qed.

(** ** C7: calls that match no mode *)

Lemma unrecognized_dispatch (args : list pyval) :
  recognized args = false ->
  dispatch args
  = Raise (if Nat.eqb (length args) 3
           then AssertionError "Wrong input arguments. PARAM must be a structure."
           else UnboundLocalError "param").
Proof.
  destruct args as [|a0 [|a1 [|a2 [|a3 [|a4 rest]]]]]; cbn; try reflexivity.
  - destruct a0; [reflexivity|reflexivity|discriminate].
  - destruct a3, a0; cbn; try reflexivity; discriminate.
Qed.

(** C7. A call that matches none of the three modes fails before [param]
    is touched; with three arguments the error is the assertion of line
    171, and with any other shape it is the UnboundLocalError of the
    variable [param], which is not one of the errors that report
    invalid arguments. *)
Theorem unrecognized_call_error
        (gep : Param -> result (list R * list R * list R * list R))
        (fmin : (R -> R) -> R -> R -> R -> R)
        (args : list pyval) :
  recognized args = false ->
  txdelay3 gep fmin args
  = (Raise (if Nat.eqb (length args) 3
            then AssertionError "Wrong input arguments. PARAM must be a structure."
            else UnboundLocalError "param"), None) /\
  (length args <> 3%nat ->
   exists e, txdelay3 gep fmin args = (Raise e, None) /\ ~ InvalidArguments e).
Proof.
  intros H. pose proof (unrecognized_dispatch args H) as Hd.
  assert (Hrun : txdelay3 gep fmin args
                 = (Raise (if Nat.eqb (length args) 3
                           then AssertionError "Wrong input arguments. PARAM must be a structure."
                           else UnboundLocalError "param"), None)).
  { unfold txdelay3, txdelay3_body. now rewrite Hd. }
  split; [exact Hrun|].
  intros Hn. apply Nat.eqb_neq in Hn. rewrite Hn in Hrun.
  exists (UnboundLocalError "param"). split; [exact Hrun|].
  intros [E|[E|E]]; discriminate.
Qed.

Lemma unrecognized_call_error_witness :
  txdelay3 gep_ok fmin_lo [PFloat 0; PFloat 0; PFloat 0; PFloat 0]
  = (Raise (UnboundLocalError "param"), None).
Proof.
  exact (proj1 (unrecognized_call_error gep_ok fmin_lo
                  [PFloat 0; PFloat 0; PFloat 0; PFloat 0] eq_refl)).
Defined.

(** ** C8: target sequences of unequal or unsupported length *)

Lemma txdelay3_raw_raise
      (gep : Param -> result (list R * list R * list R * list R))
      (fmin : (R -> R) -> R -> R -> R -> R)
      (args : list pyval) e st :
  txdelay3_raw gep fmin args = (Raise e, st) ->
  txdelay3 gep fmin args = (Raise e, st).
Proof.
  unfold txdelay3, txdelay3_body, txdelay3_raw.
  destruct (dispatch args) as [[param option]|e']; [|auto].
  unfold bind at 1.
  destruct (raw_delays gep fmin (txdelay3_inner gep fmin) option args param)
    as [[raw|e'] p1]; intros H; inversion H; reflexivity.
Qed.

(** C8. In a focus-mode call, target sequences of unequal lengths fail
    the assertion of line 252. Sequences of a common length other than 1
    and 2 also fail, but with the UnboundLocalError of the variable [d]
    on line 262: the [ValueError] of line 261 is built and not raised.
    Neither call returns delays. *)
Theorem focus_target_lengths
        (gep : Param -> result (list R * list R * list R * list R))
        (fmin : (R -> R) -> R -> R -> R -> R)
        (p : Param) (xe ye : list R) (a0 a1 a2 : pyval) :
  elements p = Some [xe; ye] ->
  is_ok (gep (with_default_c p)) = true ->
  (~ (len (to_column a0) = len (to_column a1) /\
      len (to_column a1) = len (to_column a2)) ->
   txdelay3 gep fmin [a0; a1; a2; PParam p]
   = (Raise (AssertionError "X0, Y0, and Z0 must have the same length."),
      Some (with_default_c p))) /\
  (len (to_column a0) = len (to_column a1) ->
   len (to_column a1) = len (to_column a2) ->
   len (to_column a0) <> 1%nat -> len (to_column a0) <> 2%nat ->
   txdelay3 gep fmin [a0; a1; a2; PParam p]
   = (Raise (UnboundLocalError "d"), Some (with_default_c p)) /\
   ~ MismatchedTargetLength (UnboundLocalError "d")).
Proof.
  intros He Hg. split.
  - intros Hn. apply txdelay3_raw_raise.
    unfold txdelay3_raw. cbn [dispatch].
    rewrite (raw_delays_run _ _ _ _ _ _ _ _ He Hg).
    unfold origo, arg. cbn [nth].
    destruct (Nat.eqb (len (to_column a0)) (len (to_column a1))) eqn:E01;
      destruct (Nat.eqb (len (to_column a1)) (len (to_column a2))) eqn:E12;
      try reflexivity.
    apply Nat.eqb_eq in E01, E12. tauto.
  - intros H01 H12 H1 H2. split; [|intros [E|E]; discriminate].
    apply txdelay3_raw_raise.
    unfold txdelay3_raw. cbn [dispatch].
    rewrite (raw_delays_run _ _ _ _ _ _ _ _ He Hg).
    unfold origo, arg. cbn [nth].
    rewrite <- H12, <- H01, Nat.eqb_refl. cbn [andb assert].
    apply Nat.eqb_neq in H1, H2.
    unfold bind, ret. cbn. rewrite H1, H2. reflexivity.
Qed.

Lemma focus_target_lengths_witness :
  txdelay3 gep_ok fmin_lo
           [PList [0; 0; 0]; PList [0; 0; 0]; PList [1; 1; 1]; PParam param_pair]
  = (Raise (UnboundLocalError "d"), Some param_pair).
Proof.
  refine (proj1 (proj2 (focus_target_lengths gep_ok fmin_lo param_pair
                          [0; 1] [0; 0]
                          (PList [0; 0; 0]) (PList [0; 0; 0]) (PList [1; 1; 1])
                          eq_refl eq_refl) eq_refl eq_refl _ _));
    cbn; lia.
Defined.

(** ** C6: the line-focus law *)

Lemma line_focus_raw
      (gep : Param -> result (list R * list R * list R * list R))
      (fmin : (R -> R) -> R -> R -> R -> R)
      (p : Param) (xe ye : list R) (a0 a1 a2 : pyval)
      (x01 x02 y01 y02 z01 z02 : R) :
  elements p = Some [xe; ye] ->
  is_ok (gep (with_default_c p)) = true ->
  to_column a0 = NumCol [x01; x02] ->
  to_column a1 = NumCol [y01; y02] ->
  to_column a2 = NumCol [z01; z02] ->
  let d := map2 (DelayLawSpec.line_distance (x01, y01, z01) (x02, y02, z02))
                xe ye in
  txdelay3_raw gep fmin [a0; a1; a2; PParam p]
  = (Ok [map (fun di => - di / velocity p * sign z01) d;
         map (fun di => - di / velocity p * sign z02) d],
     Some (with_default_c p)).
Proof.
  intros He Hg H0 H1 H2 d. unfold txdelay3_raw. cbn [dispatch].
  rewrite (raw_delays_run _ _ _ _ _ _ _ _ He Hg).
  unfold origo, arg. cbn [nth]. rewrite H0, H1, H2. cbn.
  unfold bind, ret. cbn. rewrite map_map2. reflexivity.
Qed.

Lemma shifted_length (row : list R) : length (shifted row) = length row.
Proof. unfold shifted. apply length_map. Qed.

(** C6. For a line focus the distance of element [i] to the focal line
    is [|cross(X_i - P1, X_i - P2)| / |P2 - P1|], but the product with
    [sign(z0)] on line 262 broadcasts over the two entries of [z0]: the
    call returns two rows of [N] delays, row [k] carrying
    [- d_i / c * sign(z0k)] shifted by its minimum, not one number per
    element. *)
Theorem line_focus_two_rows
        (gep : Param -> result (list R * list R * list R * list R))
        (fmin : (R -> R) -> R -> R -> R -> R)
        (p : Param) (xe ye : list R) (x01 x02 y01 y02 z01 z02 : R) :
  elements p = Some [xe; ye] ->
  length xe = length ye ->
  xe <> [] ->
  is_ok (gep (with_default_c p)) = true ->
  let d := map2 (DelayLawSpec.line_distance (x01, y01, z01) (x02, y02, z02))
                xe ye in
  let row1 := map (fun di => - di / velocity p * sign z01) d in
  let row2 := map (fun di => - di / velocity p * sign z02) d in
  txdelay3_raw gep fmin
               [PList [x01; x02]; PList [y01; y02]; PList [z01; z02]; PParam p]
  = (Ok [row1; row2], Some (with_default_c p)) /\
  txdelay3 gep fmin
           [PList [x01; x02]; PList [y01; y02]; PList [z01; z02]; PParam p]
  = (Ok [shifted row1; shifted row2],
     Some (set_TXdelay [shifted row1; shifted row2] (with_default_c p))) /\
  length (shifted row1) = length xe /\
  length (shifted row2) = length xe.
Proof.
  intros He Hl Hne Hg d row1 row2.
  pose proof (line_focus_raw gep fmin p xe ye
                (PList [x01; x02]) (PList [y01; y02]) (PList [z01; z02])
                x01 x02 y01 y02 z01 z02 He Hg eq_refl eq_refl eq_refl) as Hraw.
  cbv zeta in Hraw. fold d in Hraw. fold row1 row2 in Hraw.
  assert (Hd : length d = length xe) by (unfold d; now apply map2_length).
  assert (H1 : length row1 = length xe) by (unfold row1; now rewrite length_map).
  assert (H2 : length row2 = length xe) by (unfold row2; now rewrite length_map).
  assert (Hlen : length xe <> 0%nat) by (destruct xe; [contradiction|discriminate]).
  split; [exact Hraw|]. split.
  - rewrite (txdelay3_of_raw gep fmin _ _ _ Hraw); [reflexivity|].
    constructor; [|constructor; [|constructor]];
      intros E; [rewrite E in H1|rewrite E in H2]; cbn in *; lia.
  - now rewrite !shifted_length.
Qed.

Lemma line_focus_two_rows_witness :
  exists r1 r2,
    txdelay3 gep_ok fmin_lo
             [PList [-1 / 100; 1 / 100]; PList [0; 0]; PList [25 / 1000; 25 / 1000];
              PParam param_square]
    = (Ok [r1; r2], Some (set_TXdelay [r1; r2] param_square)) /\
    length r1 = 4%nat /\ length r2 = 4%nat.
Proof.
  assert (Hne : [-1 / 1000; 1 / 1000; -1 / 1000; 1 / 1000] <> [])
    by discriminate.
  destruct (line_focus_two_rows gep_ok fmin_lo param_square
              [-1 / 1000; 1 / 1000; -1 / 1000; 1 / 1000]
              [-1 / 1000; -1 / 1000; 1 / 1000; 1 / 1000]
              (-1 / 100) (1 / 100) 0 0 (25 / 1000) (25 / 1000)
              eq_refl eq_refl Hne eq_refl) as (_ & Hrun & H1 & H2).
  eexists; eexists. split; [exact Hrun|]. split; [exact H1|exact H2].
Defined.

(** ** The diverging-wave call *)

Lemma with_default_c_idem p : with_default_c (with_default_c p) = with_default_c p.
Proof. unfold with_default_c. destruct (c p) eqn:E; [now rewrite E|reflexivity]. Qed.

Lemma velocity_with_default_c p : velocity (with_default_c p) = velocity p.
Proof. unfold velocity, with_default_c. destruct (c p) eqn:E; [now rewrite E|reflexivity]. Qed.

Lemma elements_with_default_c p : elements (with_default_c p) = elements p.
Proof. unfold with_default_c. destruct (c p); reflexivity. Qed.

Lemma width_with_default_c p : width (with_default_c p) = width p.
Proof. unfold with_default_c. destruct (c p); reflexivity. Qed.

Lemma height_with_default_c p : height (with_default_c p) = height p.
Proof. unfold with_default_c. destruct (c p); reflexivity. Qed.

Lemma amax_some (l : list R) : l <> [] -> exists m, amax l = Some m.
Proof.
  destruct l as [|x t]; [contradiction|]. intros _. cbn.
  destruct (amax t); eauto.
Qed.

Lemma amin_some (l : list R) : l <> [] -> exists m, amin l = Some m.
Proof.
  destruct l as [|x t]; [contradiction|]. intros _. cbn.
  destruct (amin t); eauto.
Qed.

Lemma shifted_idem (row : list R) : row <> [] -> shifted (shifted row) = shifted row.
Proof.
  intros Hne. apply shifted_normalized.
  destruct (shift_min row) as [row'|e] eqn:E.
  - apply shift_min_ok in E as (-> & _ & Hm & Hp). now split.
  - unfold shift_min in E. destruct (amin row) eqn:Em; [discriminate|].
    apply amin_nil_iff in Em. contradiction.
Qed.

Lemma point_focus_run
      (gep : Param -> result (list R * list R * list R * list R))
      (fmin : (R -> R) -> R -> R -> R -> R)
      (p : Param) (xe ye : list R) (x0 y0 z0 : R) :
  elements p = Some [xe; ye] ->
  length xe = length ye ->
  xe <> [] ->
  is_ok (gep (with_default_c p)) = true ->
  let row := shifted (map2 (DelayLawSpec.point_delay (velocity p) x0 y0 z0) xe ye) in
  txdelay3 gep fmin [PFloat x0; PFloat y0; PFloat z0; PParam p]
  = (Ok [row], Some (set_TXdelay [row] (with_default_c p))).
Proof.
  intros He Hl Hne Hg row.
  pose proof (point_focus_raw gep fmin p xe ye (PFloat x0) (PFloat y0)
                (PFloat z0) x0 y0 z0 He Hg eq_refl eq_refl eq_refl) as Hraw.
  rewrite (txdelay3_of_raw gep fmin _ _ _ Hraw); [reflexivity|].
  constructor; [|constructor]. intros E.
  apply (f_equal (@length R)) in E. rewrite map2_length in E by assumption.
  destruct xe; [contradiction|discriminate].
Qed.

Lemma diverging_run
      (gep : Param -> result (list R * list R * list R * list R))
      (fmin : (R -> R) -> R -> R -> R -> R)
      (p : Param) (xe ye : list R) (tiltx tilty omega w h : R) :
  elements p = Some [xe; ye] ->
  length xe = length ye ->
  xe <> [] ->
  is_ok (gep (with_default_c p)) = true ->
  tilt_ok tiltx tilty = true ->
  0 <= omega <= 2 * PI ->
  plaid_test xe ye = Ok true ->
  width p = Some w ->
  height p = Some h ->
  exists l b,
    let '(x0, y0, z0) := virtual_source fmin tiltx tilty omega l b in
    let row := shifted (map2 (DelayLawSpec.point_delay (velocity p) x0 y0 z0)
                             xe ye) in
    txdelay3 gep fmin [PParam p; PFloat tiltx; PFloat tilty; PFloat omega]
    = (Ok [row], Some (set_TXdelay [row] (with_default_c p))).
Proof.
  intros He Hl Hne Hg Ht [Ho1 Ho2] Hp Hw Hh.
  assert (Hye : ye <> []) by (destruct xe, ye; try discriminate; contradiction).
  destruct (amax_some xe Hne) as [xmax Hxmax].
  destruct (amin_some xe Hne) as [xmin Hxmin].
  destruct (amax_some ye Hye) as [ymax Hymax].
  destruct (amin_some ye Hye) as [ymin Hymin].
  exists (xmax - xmin + w), (ymax - ymin + h).
  destruct (virtual_source fmin tiltx tilty omega (xmax - xmin + w)
                           (ymax - ymin + h)) as [[x0 y0] z0] eqn:Ev.
  set (q := with_default_c p).
  set (row := shifted (map2 (DelayLawSpec.point_delay (velocity p) x0 y0 z0) xe ye)).
  cbv zeta.
  assert (Hrow : row <> []).
  { unfold row. intros E. apply (f_equal (@length R)) in E.
    rewrite shifted_length, map2_length in E by assumption.
    destruct xe; [contradiction|discriminate]. }
  assert (Hraw : txdelay3_raw gep fmin
                   [PParam p; PFloat tiltx; PFloat tilty; PFloat omega]
                 = (Ok [row], Some (set_TXdelay [row] q))).
  { assert (Hdiv : diverging fmin (txdelay3_inner gep fmin) xe ye (velocity p)
                     [PParam p; PFloat tiltx; PFloat tilty; PFloat omega] q
                   = (Ok [row], set_TXdelay [row] q)).
    { unfold diverging, arg. cbn [nth].
      erewrite bind_ok by reflexivity. cbv beta.
      erewrite bind_ok by reflexivity. cbv beta.
      erewrite bind_ok by reflexivity. cbv beta iota.
      erewrite bind_ok by (rewrite Ht; reflexivity). cbv beta.
      erewrite bind_ok by (rewrite (Rleb_true _ _ Ho2); reflexivity). cbv beta.
      erewrite bind_ok by (rewrite (Rleb_true _ _ Ho1); reflexivity). cbv beta.
      erewrite bind_ok by (rewrite Hp; reflexivity). cbv beta.
      erewrite bind_ok by reflexivity. cbv beta.
      erewrite bind_ok by (unfold reduce; rewrite Hxmax; reflexivity). cbv beta.
      erewrite bind_ok by (unfold reduce; rewrite Hxmin; reflexivity). cbv beta.
      erewrite bind_ok
        by (unfold field, bind, get, q; cbv beta iota; rewrite width_with_default_c, Hw;
            reflexivity).
      cbv beta.
      erewrite bind_ok by (unfold reduce; rewrite Hymax; reflexivity). cbv beta.
      erewrite bind_ok by (unfold reduce; rewrite Hymin; reflexivity). cbv beta.
      erewrite bind_ok
        by (unfold field, bind, get, q; cbv beta iota; rewrite height_with_default_c, Hh;
            reflexivity).
      cbv beta. rewrite Ev. cbv beta iota. unfold call. fold q.
      change (txdelay3_inner gep fmin [PFloat x0; PFloat y0; PFloat z0; PParam q])
        with (txdelay3 gep fmin [PFloat x0; PFloat y0; PFloat z0; PParam q]).
      rewrite (point_focus_run gep fmin q xe ye x0 y0 z0).
      - unfold q. rewrite with_default_c_idem, velocity_with_default_c.
        reflexivity.
      - unfold q. now rewrite elements_with_default_c.
      - assumption.
      - assumption.
      - unfold q. now rewrite with_default_c_idem. }
    unfold txdelay3_raw. cbn [dispatch].
    rewrite (raw_delays_run _ _ _ _ _ _ _ _ He Hg). fold q.
    now rewrite Hdiv. }
  rewrite (txdelay3_of_raw gep fmin _ _ _ Hraw).
  - assert (Hs : shifted row = row).
    { unfold row. apply shifted_idem. intros E.
      apply (f_equal (@length R)) in E.
      rewrite map2_length in E by assumption.
      destruct xe; [contradiction|discriminate]. }
    cbn [map]. rewrite Hs. reflexivity.
  - constructor; [assumption|constructor].
Qed.

(** ** C5: the plaid-grid test *)

Ltac real_cases :=
  repeat (cbn;
          match goal with
          | |- context [Rle_dec ?a ?b] => destruct (Rle_dec a b); try lra
          | |- context [Rlt_dec ?a ?b] => destruct (Rlt_dec a b); try lra
          | |- context [Req_dec_T ?a ?b] => destruct (Req_dec_T a b); try lra
          end).

Lemma sort_diag : sort [0; 0; 1; 1] = [0; 0; 1; 1].
Proof. real_cases. reflexivity. Qed.

Lemma unique_diag : unique [0; 0; 1; 1] = [0; 1].
Proof. unfold unique. rewrite sort_diag. real_cases. reflexivity. Qed.

Lemma plaid_diag : plaid_test [0; 0; 1; 1] [0; 0; 1; 1] = Ok true.
Proof.
  unfold plaid_test. rewrite unique_diag, sort_diag.
  unfold meshgrid_x_flat, meshgrid_y_flat, all_eq, Reqb. real_cases.
  reflexivity.
Qed.

Lemma diag_not_plaid : ~ PlaidGrid [0; 0; 1; 1] [0; 0; 1; 1].
Proof.
  unfold PlaidGrid. rewrite unique_diag. intros HP.
  apply Permutation_sym in HP.
  assert (Hin : In (0, 1) (combine [0; 0; 1; 1] [0; 0; 1; 1])).
  { eapply Permutation_in; [exact HP|]. cbn. auto. }
  cbn in Hin.
  repeat (destruct Hin as [Hin|Hin]; [inversion Hin; lra|]).
  exact Hin.
Qed.

(** *** Sorting is canonical for permutations *)

Lemma insert_perm x l : Permutation (insert x l) (x :: l).
Proof.
  induction l as [|y t IH]; cbn; [reflexivity|].
  destruct (Rle_dec x y); [reflexivity|].
  rewrite IH. apply perm_swap.
Qed.

Lemma sort_perm l : Permutation (sort l) l.
Proof.
  induction l as [|x t IH]; cbn; [reflexivity|].
  rewrite insert_perm. now constructor.
Qed.

Lemma insert_sorted x l :
  StronglySorted Rle l -> StronglySorted Rle (insert x l).
Proof.
  induction 1 as [|y t Hs IH Hy]; cbn.
  - constructor; constructor.
  - destruct (Rle_dec x y) as [Hxy|Hxy].
    + constructor; [now constructor|].
      constructor; [assumption|].
      eapply Forall_impl; [|exact Hy]. cbn; intros; lra.
    + constructor; [assumption|].
      eapply Permutation_Forall; [symmetry; apply insert_perm|].
      constructor; [lra|assumption].
Qed.

Lemma sort_sorted l : StronglySorted Rle (sort l).
Proof.
  induction l as [|x t IH]; cbn; [constructor|now apply insert_sorted].
Qed.

Lemma sorted_perm_eq l l' :
  StronglySorted Rle l -> StronglySorted Rle l' -> Permutation l l' -> l = l'.
Proof.
  intros Hl; revert l'; induction Hl as [|x t Hs IH Hx]; intros l' Hl' HP.
  - apply Permutation_nil in HP. now subst.
  - destruct Hl' as [|y t' Hs' Hy].
    + apply Permutation_sym, Permutation_nil in HP. discriminate.
    + assert (Hxy : x = y).
      { assert (H1 : In y (x :: t))
          by (eapply Permutation_in; [symmetry; exact HP|now left]).
        assert (H2 : In x (y :: t'))
          by (eapply Permutation_in; [exact HP|now left]).
        rewrite Forall_forall in Hx, Hy.
        destruct H1 as [H1|H1]; [congruence|].
        destruct H2 as [H2|H2]; [congruence|].
        specialize (Hx _ H1). specialize (Hy _ H2). lra. }
      subst y. f_equal. apply IH; [assumption|].
      eapply Permutation_cons_inv; exact HP.
Qed.

Lemma sort_perm_eq l l' : Permutation l l' -> sort l = sort l'.
Proof.
  intros HP. apply sorted_perm_eq; try apply sort_sorted.
  rewrite !sort_perm. exact HP.
Qed.

Lemma all_eq_refl l : all_eq l l = Ok true.
Proof.
  unfold all_eq. rewrite Nat.eqb_refl. f_equal.
  induction l as [|x t IH]; cbn; [reflexivity|].
  rewrite IH. unfold Reqb. destruct (Req_dec_T x x); [reflexivity|contradiction].
Qed.

Lemma map_fst_combine (a b : list R) :
  length a = length b -> map fst (combine a b) = a.
Proof.
  revert b; induction a as [|x a IH]; intros [|y b] H; cbn in *;
    try reflexivity; try discriminate. f_equal. apply IH; lia.
Qed.

Lemma map_snd_combine (a b : list R) :
  length a = length b -> map snd (combine a b) = b.
Proof.
  revert b; induction a as [|x a IH]; intros [|y b] H; cbn in *;
    try reflexivity; try discriminate. f_equal. apply IH; lia.
Qed.

Lemma tile_transpose (A B : list R) :
  Permutation (flat_map (fun x => map (fun _ => x) B) A)
              (flat_map (fun _ => A) B).
Proof.
  induction A as [|a A IH]; cbn.
  - induction B; cbn; [reflexivity|assumption].
  - rewrite IH. clear IH.
    induction B as [|b B IHB]; cbn; [reflexivity|].
    constructor. rewrite <- IHB.
    rewrite !app_assoc. apply Permutation_app_tail, Permutation_app_comm.
Qed.

Lemma map_fst_list_prod (A B : list R) :
  map fst (list_prod A B) = flat_map (fun x => map (fun _ => x) B) A.
Proof.
  induction A as [|a A IH]; cbn; [reflexivity|].
  rewrite map_app, IH, map_map. reflexivity.
Qed.

Lemma map_snd_list_prod (A B : list R) :
  map snd (list_prod A B) = flat_map (fun _ => B) A.
Proof.
  induction A as [|a A IH]; cbn; [reflexivity|].
  rewrite map_app, IH, map_map. cbn. now rewrite map_id.
Qed.

(** X18. A true plaid grid passes the test of lines 211-214, in whatever
    order its points are listed. *)
Lemma plaid_grid_accepted xe ye :
  length xe = length ye -> PlaidGrid xe ye -> plaid_test xe ye = Ok true.
Proof.
  intros Hl HP. unfold PlaidGrid in HP. unfold plaid_test.
  assert (Hx : sort (meshgrid_x_flat (unique xe) (unique ye)) = sort xe).
  { apply sort_perm_eq. unfold meshgrid_x_flat.
    rewrite <- tile_transpose, <- map_fst_list_prod.
    rewrite <- (map_fst_combine xe ye Hl) at 2.
    apply Permutation_map. now symmetry. }
  assert (Hy : sort (meshgrid_y_flat (unique xe) (unique ye)) = sort ye).
  { apply sort_perm_eq. unfold meshgrid_y_flat.
    rewrite tile_transpose, <- map_snd_list_prod.
    rewrite <- (map_snd_combine xe ye Hl) at 2.
    apply Permutation_map. now symmetry. }
  rewrite Hx, Hy, !all_eq_refl. reflexivity.
Qed.

(** C5. The test of lines 211-214 compares the sorted x-values and the
    sorted y-values separately. The diagonal layout
    [(0,0), (0,0), (1,1), (1,1)] is not a plaid grid, yet the test
    accepts it and the diverging-wave call returns delays. *)
Theorem plaid_test_accepts_diagonal
        (fmin : (R -> R) -> R -> R -> R -> R) :
  ~ PlaidGrid [0; 0; 1; 1] [0; 0; 1; 1] /\
  plaid_test [0; 0; 1; 1] [0; 0; 1; 1] = Ok true /\
  exists d st,
    txdelay3 gep_ok fmin [PParam param_diag; PFloat 0; PFloat 0; PFloat 0]
    = (Ok d, st).
Proof.
  split; [exact diag_not_plaid|]. split; [exact plaid_diag|].
  assert (Ho : 0 <= 0 <= 2 * PI) by (pose proof PI_RGT_0; lra).
  assert (Hne : [0; 0; 1; 1] <> []) by discriminate.
  destruct (diverging_run gep_ok fmin param_diag [0; 0; 1; 1] [0; 0; 1; 1]
              0 0 0 (1 / 2) (1 / 2) eq_refl eq_refl Hne eq_refl tilt_ok_0 Ho
              plaid_diag eq_refl eq_refl) as (l & b & H).
  destruct (virtual_source fmin 0 0 0 l b) as [[x0 y0] z0].
  eexists; eexists; exact H.
Qed.

(** ** C9: what a call writes onto [param] *)

Lemma frame_refl p : frame p p.
Proof. unfold frame; auto. Qed.

Lemma frame_trans p1 p2 p3 : frame p1 p2 -> frame p2 p3 -> frame p1 p3.
Proof.
  unfold frame. intros (He & Hw & Hh & Hc) (He' & Hw' & Hh' & Hc').
  repeat split; try congruence.
  destruct Hc as [Hc|[Hc1 Hc2]], Hc' as [Hc'|[Hc1' Hc2']].
  - left; congruence.
  - right; split; congruence.
  - right; split; congruence.
  - congruence.
Qed.

Lemma reads_frames {A} (m : M A) : reads m -> frames m.
Proof. intros H p r p' E. rewrite (H _ _ _ E). apply frame_refl. Qed.

Lemma reads_ret {A} (a : A) : reads (ret a).
Proof. intros p r p' E; inversion E; reflexivity. Qed.

Lemma reads_raise {A} e : reads (@raise A e).
Proof. intros p r p' E; inversion E; reflexivity. Qed.

Lemma reads_lift {A} (x : result A) : reads (lift x).
Proof. intros p r p' E; inversion E; reflexivity. Qed.

Lemma reads_get : reads get.
Proof. intros p r p' E; inversion E; reflexivity. Qed.

Lemma reads_assert b msg : reads (assert b msg).
Proof. unfold assert; destruct b; [apply reads_ret|apply reads_raise]. Qed.

Lemma reads_bind {A B} (m : M A) (k : A -> M B) :
  reads m -> (forall a, reads (k a)) -> reads (bind m k).
Proof.
  intros Hm Hk p r p' E. unfold bind in E.
  destruct (m p) as [[a|e] p1] eqn:Em.
  - rewrite <- (Hm _ _ _ Em). eapply Hk; exact E.
  - inversion E; subst. eapply Hm; exact Em.
Qed.

Lemma frames_bind {A B} (m : M A) (k : A -> M B) :
  frames m -> (forall a, frames (k a)) -> frames (bind m k).
Proof.
  intros Hm Hk p r p' E. unfold bind in E.
  destruct (m p) as [[a|e] p1] eqn:Em.
  - eapply frame_trans; [eapply Hm; exact Em|eapply Hk; exact E].
  - inversion E; subst. eapply Hm; exact Em.
Qed.

Lemma reads_type_error {A} : reads (@type_error A).
Proof. apply reads_raise. Qed.

Lemma reads_field f : reads (field f).
Proof.
  unfold field. apply reads_bind; [apply reads_get|].
  intros a. destruct (f a); [apply reads_ret|apply reads_type_error].
Qed.

Lemma reads_reduce f l : reads (reduce f l).
Proof. unfold reduce. destruct (f l); [apply reads_ret|apply reads_raise]. Qed.

Ltac reads_tac :=
  repeat first
         [ apply reads_ret | apply reads_raise | apply reads_lift
         | apply reads_get | apply reads_assert | apply reads_type_error
         | apply reads_field | apply reads_reduce
         | apply reads_bind; [|intros ?]
         | match goal with
           | |- reads (match ?x with _ => _ end) => destruct x
           end ].

Lemma reads_plane_wave xe ye cv args : reads (plane_wave xe ye cv args).
Proof. unfold plane_wave. reads_tac. Qed.

Lemma reads_origo xe ye cv args : reads (origo xe ye cv args).
Proof. unfold origo. reads_tac. Qed.

Lemma frames_modify_c p :
  c p = None -> frame p (set_c 1540 p).
Proof. intros H. unfold frame. cbn. repeat split. right. now split. Qed.

Lemma frames_set_TXdelay d : frames (modify (set_TXdelay d)).
Proof.
  intros p r p' E. inversion E; subst. unfold frame. cbn. auto.
Qed.

Lemma frames_finish delays : frames (finish delays).
Proof.
  unfold finish. apply frames_bind; [apply reads_frames, reads_lift|].
  intros d. apply frames_bind; [apply frames_set_TXdelay|].
  intros _. apply reads_frames, reads_ret.
Qed.

Section Frame.

Variable gep : Param -> result (list R * list R * list R * list R).
Variable fmin : (R -> R) -> R -> R -> R -> R.

Lemma frames_geometry : frames (geometry gep).
Proof.
  intros p r p'. unfold geometry, bind at 1, get, isfield.
  destruct (elements p) as [rows|].
  2:{ cbn. intros E; inversion E; apply frame_refl. }
  cbn [assert]. unfold bind at 1, ret at 1. unfold bind at 1.
  destruct (assert _ _ p) as [[u|e] p1] eqn:Ea.
  2:{ apply reads_assert in Ea. intros E; inversion E; subst. apply frame_refl. }
  apply reads_assert in Ea; subst p1.
  destruct (c p) as [v|] eqn:Ec.
  - unfold bind, ret, get, lift. rewrite Ec.
    destruct (gep p); intros E; inversion E; apply frame_refl.
  - unfold bind, ret, get, lift, modify. cbn [c set_c].
    destruct (gep (set_c 1540 p)); intros E; inversion E;
      now apply frames_modify_c.
Qed.

Lemma frames_call self x0 y0 z0 :
  framed_callee self ->
  frames (call self (fun param => [PFloat x0; PFloat y0; PFloat z0; PParam param])).
Proof.
  intros Hself p r p' E. unfold call in E.
  destruct (self _) as [r0 [q'|]] eqn:Es; inversion E; subst.
  - eapply Hself; exact Es.
  - apply frame_refl.
Qed.

Lemma frames_diverging self xe ye cv args :
  framed_callee self -> frames (diverging fmin self xe ye cv args).
Proof.
  intros Hself. unfold diverging.
  repeat first
         [ apply reads_frames; solve [reads_tac]
         | apply frames_bind; [|intros ?]
         | match goal with
           | |- frames (match ?x with _ => _ end) => destruct x
           end ].
  all: try (now apply frames_call).
  all: apply reads_frames; reads_tac.
Qed.

Lemma frames_raw_delays self option args :
  framed_callee self -> frames (raw_delays gep fmin self option args).
Proof.
  intros Hself. unfold raw_delays.
  apply frames_bind; [apply frames_geometry|].
  intros [[xe ye] cv]. destruct option.
  - apply reads_frames, reads_origo.
  - now apply frames_diverging.
  - apply reads_frames, reads_plane_wave.
Qed.

Lemma frames_body self args param option r st :
  framed_callee self ->
  dispatch args = Ok (param, option) ->
  txdelay3_body gep fmin self args = (r, st) ->
  exists p', st = Some p' /\ frame param p'.
Proof.
  intros Hself Hd. unfold txdelay3_body. rewrite Hd.
  destruct (bind _ _ param) as [r0 p'] eqn:E. intros H; inversion H; subst.
  exists p'. split; [reflexivity|].
  revert E. apply frames_bind; [now apply frames_raw_delays|].
  intros d. apply frames_finish.
Qed.

Lemma framed_inner : framed_callee (txdelay3_inner gep fmin).
Proof.
  intros x0 y0 z0 q r q' E.
  unfold txdelay3_inner in E.
  eapply frames_body in E as (p' & Hp & Hf).
  - inversion Hp; subst. exact Hf.
  - intros ? ? ? ? ? ? H; discriminate.
  - reflexivity.
Qed.

Lemma txdelay3_frame args param option r st :
  dispatch args = Ok (param, option) ->
  txdelay3 gep fmin args = (r, st) ->
  exists p', st = Some p' /\ frame param p'.
Proof.
  intros Hd H. eapply frames_body; [apply framed_inner|exact Hd|exact H].
Qed.

End Frame.

(** C9 as stated fails: a call on a configuration without velocity
    writes the default [c = 1540] onto it (line 184). *)
Lemma default_velocity_written :
  ~ (forall args param option r p',
        dispatch args = Ok (param, option) ->
        txdelay3 gep_ok fmin_lo args = (r, Some p') ->
        writes_only_TXdelay param p').
Proof.
  intros H.
  assert (Hne : [0; 1] <> []) by discriminate.
  pose proof (plane_wave_zero_run gep_ok fmin_lo param_pair_no_c [0; 1] [0; 0]
                eq_refl eq_refl Hne eq_refl) as Hrun.
  specialize (H [PParam param_pair_no_c; PFloat 0; PFloat 0] param_pair_no_c
                PlaneWave _ _ eq_refl Hrun).
  destruct H as (_ & Hc & _). cbn in Hc. discriminate.
Qed.

(** C9 (amended). Whatever the call and its outcome, the configuration
    keeps its element coordinates, its width and height, and a velocity
    that the caller supplied; the fields the call may write are
    [TXdelay] and, when the velocity is absent, [c], which receives the
    default 1540. A successful call stores the returned delays in
    [TXdelay]. *)
Theorem param_frame
        (gep : Param -> result (list R * list R * list R * list R))
        (fmin : (R -> R) -> R -> R -> R -> R)
        (args : list pyval) (param : Param) (mode : beam)
        (r : result matrix) (st : option Param) :
  dispatch args = Ok (param, mode) ->
  txdelay3 gep fmin args = (r, st) ->
  exists p',
    st = Some p' /\
    elements p' = elements param /\
    width p' = width param /\
    height p' = height param /\
    (forall v, c param = Some v -> c p' = Some v) /\
    (c param = None -> c p' = None \/ c p' = Some 1540) /\
    (forall d, r = Ok d -> TXdelay p' = Some d).
Proof.
  intros Hd H.
  destruct (txdelay3_frame gep fmin args param mode r st Hd H)
    as (p' & -> & He & Hw & Hh & Hc).
  exists p'. repeat split; try assumption.
  - intros v Hv. destruct Hc as [Hc|[Hc _]]; congruence.
  - intros Hn. destruct Hc as [Hc|[_ Hc]]; [left; congruence|now right].
  - intros d ->. apply txdelay3_success in H as (raw & p1 & _ & _ & Hst).
    inversion Hst; subst. reflexivity.
Qed.

Lemma param_frame_witness :
  exists p',
    Some (set_TXdelay [[0; 0]] (with_default_c param_pair_no_c)) = Some p' /\
    elements p' = elements param_pair_no_c /\
    width p' = width param_pair_no_c /\
    height p' = height param_pair_no_c /\
    (forall v, c param_pair_no_c = Some v -> c p' = Some v) /\
    (c param_pair_no_c = None -> c p' = None \/ c p' = Some 1540) /\
    (forall d, Ok [[0; 0]] = Ok d -> TXdelay p' = Some d).
Proof.
  assert (Hne : [0; 1] <> []) by discriminate.
  exact (param_frame gep_ok fmin_lo
           [PParam param_pair_no_c; PFloat 0; PFloat 0] param_pair_no_c
           PlaneWave _ _ eq_refl
           (plane_wave_zero_run gep_ok fmin_lo param_pair_no_c [0; 1] [0; 0]
              eq_refl eq_refl Hne eq_refl)).
Defined.

(** * Further properties *)

(** ** The diverging-wave branch up to its recursive call *)

Lemma row_max_some (l : list R) m : amax l = Some m -> row_max l = m.
Proof. intros H. unfold row_max. now rewrite H. Qed.

Lemma row_min_some (l : list R) m : amin l = Some m -> row_min l = m.
Proof. intros H. unfold row_min. now rewrite H. Qed.

Lemma diverging_reaches_call
      (fmin : (R -> R) -> R -> R -> R -> R)
      (self : list pyval -> outcome)
      (q a0 : Param) (xe ye : list R) (cv tiltx tilty omega w h : R) :
  xe <> [] -> ye <> [] ->
  tilt_ok tiltx tilty = true ->
  0 <= omega <= 2 * PI ->
  plaid_test xe ye = Ok true ->
  width q = Some w ->
  height q = Some h ->
  diverging fmin self xe ye cv
            [PParam a0; PFloat tiltx; PFloat tilty; PFloat omega] q
  = let '(x0, y0, z0) :=
      virtual_source fmin tiltx tilty omega (aperture xe w) (aperture ye h) in
    call self (fun param => [PFloat x0; PFloat y0; PFloat z0; PParam param]) q.
Proof.
  intros Hne Hye Ht [Ho1 Ho2] Hp Hw Hh.
  destruct (amax_some xe Hne) as [xmax Hxmax].
  destruct (amin_some xe Hne) as [xmin Hxmin].
  destruct (amax_some ye Hye) as [ymax Hymax].
  destruct (amin_some ye Hye) as [ymin Hymin].
  unfold aperture.
  rewrite (row_max_some _ _ Hxmax), (row_min_some _ _ Hxmin),
    (row_max_some _ _ Hymax), (row_min_some _ _ Hymin).
  unfold diverging, arg. cbn [nth].
  erewrite bind_ok by reflexivity. cbv beta.
  erewrite bind_ok by reflexivity. cbv beta.
  erewrite bind_ok by reflexivity. cbv beta iota.
  erewrite bind_ok by (rewrite Ht; reflexivity). cbv beta.
  erewrite bind_ok by (rewrite (Rleb_true _ _ Ho2); reflexivity). cbv beta.
  erewrite bind_ok by (rewrite (Rleb_true _ _ Ho1); reflexivity). cbv beta.
  erewrite bind_ok by (rewrite Hp; reflexivity). cbv beta.
  erewrite bind_ok by reflexivity. cbv beta.
  erewrite bind_ok by (unfold reduce; rewrite Hxmax; reflexivity). cbv beta.
  erewrite bind_ok by (unfold reduce; rewrite Hxmin; reflexivity). cbv beta.
  erewrite bind_ok
    by (unfold field, bind, get; cbv beta iota; rewrite Hw; reflexivity).
  cbv beta.
  erewrite bind_ok by (unfold reduce; rewrite Hymax; reflexivity). cbv beta.
  erewrite bind_ok by (unfold reduce; rewrite Hymin; reflexivity). cbv beta.
  erewrite bind_ok
    by (unfold field, bind, get; cbv beta iota; rewrite Hh; reflexivity).
  cbv beta. reflexivity.
Qed.

(** ** X1: a diverging wave is a focus at the virtual source *)

Lemma diverging_as_focus
        (gep : Param -> result (list R * list R * list R * list R))
        (fmin : (R -> R) -> R -> R -> R -> R)
        (p : Param) (xe ye : list R) (tiltx tilty omega w h : R) :
  elements p = Some [xe; ye] ->
  length xe = length ye ->
  xe <> [] ->
  is_ok (gep (with_default_c p)) = true ->
  Rabs tiltx < PI / 2 ->
  Rabs tilty < PI / 2 ->
  0 <= omega <= 2 * PI ->
  plaid_test xe ye = Ok true ->
  width p = Some w ->
  height p = Some h ->
  let '(x0, y0, z0) :=
    virtual_source fmin tiltx tilty omega (aperture xe w) (aperture ye h) in
  txdelay3Diverging gep fmin (PParam p) (PFloat tiltx) (PFloat tilty)
                    (PFloat omega)
  = txdelay3Focused gep fmin (PParam p) (PFloat x0) (PFloat y0) (PFloat z0).
Proof.
  intros He Hl Hne Hg Htx Hty Ho Hp Hw Hh.
  assert (Hye : ye <> []) by (destruct xe, ye; try discriminate; contradiction).
  destruct (virtual_source fmin tiltx tilty omega (aperture xe w)
                           (aperture ye h)) as [[x0 y0] z0] eqn:Ev.
  unfold txdelay3Diverging, txdelay3Focused.
  set (q := with_default_c p).
  pose proof (point_focus_run gep fmin p xe ye x0 y0 z0 He Hl Hne Hg) as Hfoc.
  cbv zeta in Hfoc. rewrite Hfoc.
  set (row := shifted (map2 (DelayLawSpec.point_delay (velocity p) x0 y0 z0)
                            xe ye)) in *.
  assert (Hrow : row <> []).
  { unfold row. intros E. apply (f_equal (@length R)) in E.
    rewrite shifted_length, map2_length in E by assumption.
    destruct xe; [contradiction|discriminate]. }
  assert (Hraw : txdelay3_raw gep fmin
                   [PParam p; PFloat tiltx; PFloat tilty; PFloat omega]
                 = (Ok [row], Some (set_TXdelay [row] q))).
  { unfold txdelay3_raw. cbn [dispatch].
    rewrite (raw_delays_run _ _ _ _ _ _ _ _ He Hg). fold q.
    rewrite (diverging_reaches_call fmin _ q p xe ye _ tiltx tilty omega w h);
      auto using tilt_ok_true.
    2:{ unfold q. now rewrite width_with_default_c. }
    2:{ unfold q. now rewrite height_with_default_c. }
    rewrite Ev. unfold call.
    change (txdelay3_inner gep fmin [PFloat x0; PFloat y0; PFloat z0; PParam q])
      with (txdelay3 gep fmin [PFloat x0; PFloat y0; PFloat z0; PParam q]).
    rewrite (point_focus_run gep fmin q xe ye x0 y0 z0).
    - unfold q. rewrite with_default_c_idem, velocity_with_default_c.
      reflexivity.
    - unfold q. now rewrite elements_with_default_c.
    - assumption.
    - assumption.
    - unfold q. now rewrite with_default_c_idem. }
  rewrite (txdelay3_of_raw gep fmin _ _ _ Hraw).
  - assert (Hs : shifted row = row).
    { unfold row. apply shifted_idem. intros E.
      apply (f_equal (@length R)) in E.
      rewrite map2_length in E by assumption.
      destruct xe; [contradiction|discriminate]. }
    cbn [map]. rewrite Hs. reflexivity.
  - constructor; [assumption|constructor].
Qed.

(** X1. A diverging-wave call that passes its checks is the focused call
    at the virtual source of lines 217-244: [txdelay3Diverging] and
    [txdelay3Focused] return the same delays and leave [param] in the
    same state. *)
Theorem diverging_is_virtual_focus
        (gep : Param -> result (list R * list R * list R * list R))
        (fmin : (R -> R) -> R -> R -> R -> R)
        (p : Param) (xe ye : list R) (tiltx tilty omega w h : R) :
  elements p = Some [xe; ye] ->
  length xe = length ye ->
  xe <> [] ->
  is_ok (gep (with_default_c p)) = true ->
  Rabs tiltx < PI / 2 ->
  Rabs tilty < PI / 2 ->
  0 <= omega <= 2 * PI ->
  plaid_test xe ye = Ok true ->
  width p = Some w ->
  height p = Some h ->
  let '(x0, y0, z0) :=
    virtual_source fmin tiltx tilty omega (aperture xe w) (aperture ye h) in
  txdelay3Diverging gep fmin (PParam p) (PFloat tiltx) (PFloat tilty)
                    (PFloat omega)
  = txdelay3Focused gep fmin (PParam p) (PFloat x0) (PFloat y0) (PFloat z0).
Proof. exact (diverging_as_focus gep fmin p xe ye tiltx tilty omega w h). Qed.

(** ** Complete runs of the plane-wave and point-focus calls *)

Lemma map2_nonempty {A B C} (f : A -> B -> C) (a : list A) (b : list B) :
  length a = length b -> a <> [] -> map2 f a b <> [].
Proof.
  destruct a, b; cbn; intros Hl Hne; try discriminate; contradiction.
Qed.

Lemma plane_wave_run
      (gep : Param -> result (list R * list R * list R * list R))
      (fmin : (R -> R) -> R -> R -> R -> R)
      (p : Param) (xe ye : list R) (tiltx tilty : R) :
  elements p = Some [xe; ye] ->
  length xe = length ye ->
  xe <> [] ->
  is_ok (gep (with_default_c p)) = true ->
  tilt_ok tiltx tilty = true ->
  let row := shifted (map2 (DelayLawSpec.plane_delay (velocity p) tiltx tilty)
                           xe ye) in
  txdelay3 gep fmin [PParam p; PFloat tiltx; PFloat tilty]
  = (Ok [row], Some (set_TXdelay [row] (with_default_c p))).
Proof.
  intros He Hl Hne Hg Ht row.
  pose proof (plane_wave_raw gep fmin p xe ye tiltx tilty He Hg Ht) as Hraw.
  rewrite (txdelay3_of_raw gep fmin _ _ _ Hraw); [reflexivity|].
  constructor; [now apply map2_nonempty|constructor].
Qed.

Lemma map2_map_map {A B C A' B'} (f : A -> B -> C) (g : A' -> A) (h : B' -> B)
      (a : list A') (b : list B') :
  map2 f (map g a) (map h b) = map2 (fun x y => f (g x) (h y)) a b.
Proof.
  revert b; induction a as [|x a IH]; intros [|y b]; cbn; try reflexivity.
  now rewrite IH.
Qed.

Lemma amin_map_plus (l : list R) m k :
  amin l = Some m -> amin (map (fun v => v + k) l) = Some (m + k).
Proof.
  intros H. rewrite (map_ext _ (fun v => v - - k)) by (intros; lra).
  rewrite (amin_map_sub _ _ (- k) H). f_equal; lra.
Qed.

Lemma shifted_map_plus (row : list R) k :
  shifted (map (fun v => v + k) row) = shifted row.
Proof.
  unfold shifted, row_min. destruct (amin row) as [m|] eqn:E.
  - rewrite (amin_map_plus _ _ k E), map_map.
    apply map_ext; intros; lra.
  - apply amin_nil_iff in E; subst; reflexivity.
Qed.

Lemma nth_shifted (row : list R) i :
  (i < length row)%nat -> nth i (shifted row) 0 = nth i row 0 - row_min row.
Proof.
  intros Hi. unfold shifted.
  rewrite (nth_indep _ 0 (0 - row_min row))
    by (now rewrite length_map).
  now rewrite (map_nth (fun v => v - row_min row)).
Qed.

(** ** X2: translation of the array and the focus *)

(** X2. Moving every element and the focus point by the same [(dx, dy)]
    does not change the delays of a point focus. *)
Theorem point_focus_translation
        (gep : Param -> result (list R * list R * list R * list R))
        (fmin : (R -> R) -> R -> R -> R -> R)
        (p p' : Param) (xe ye : list R) (x0 y0 z0 dx dy : R) :
  elements p = Some [xe; ye] ->
  elements p' = Some [map (fun x => x + dx) xe; map (fun y => y + dy) ye] ->
  c p' = c p ->
  length xe = length ye ->
  xe <> [] ->
  is_ok (gep (with_default_c p)) = true ->
  is_ok (gep (with_default_c p')) = true ->
  fst (txdelay3Focused gep fmin (PParam p')
                       (PFloat (x0 + dx)) (PFloat (y0 + dy)) (PFloat z0))
  = fst (txdelay3Focused gep fmin (PParam p) (PFloat x0) (PFloat y0) (PFloat z0)).
Proof.
  intros He He' Hc Hl Hne Hg Hg'. unfold txdelay3Focused.
  pose proof (point_focus_run gep fmin p xe ye x0 y0 z0 He Hl Hne Hg) as H.
  cbv zeta in H. rewrite H. clear H.
  assert (Hl' : length (map (fun x => x + dx) xe)
                = length (map (fun y => y + dy) ye))
    by (now rewrite !length_map).
  assert (Hne' : map (fun x => x + dx) xe <> [])
    by (destruct xe; [contradiction|discriminate]).
  pose proof (point_focus_run gep fmin p' _ _ (x0 + dx) (y0 + dy) z0
                He' Hl' Hne' Hg') as H.
  cbv zeta in H. rewrite H. clear H. cbn [fst].
  do 3 f_equal. rewrite map2_map_map.
  assert (Hv : velocity p' = velocity p) by (unfold velocity; now rewrite Hc).
  rewrite Hv. apply map2_ext. intros x y.
  unfold DelayLawSpec.point_delay, DelayLawSpec.point_distance.
  replace (x + dx - (x0 + dx)) with (x - x0) by ring.
  replace (y + dy - (y0 + dy)) with (y - y0) by ring.
  reflexivity.
Qed.

(** ** X3: translation of the array under a plane wave *)

(** X3. The returned plane-wave delays do not depend on the origin of the
    element coordinates: moving every element by the same [(dx, dy)]
    adds a constant to the delays before normalisation and leaves the
    returned delays unchanged. *)
Theorem plane_wave_translation
        (gep : Param -> result (list R * list R * list R * list R))
        (fmin : (R -> R) -> R -> R -> R -> R)
        (p p' : Param) (xe ye : list R) (tiltx tilty dx dy : R) :
  elements p = Some [xe; ye] ->
  elements p' = Some [map (fun x => x + dx) xe; map (fun y => y + dy) ye] ->
  c p' = c p ->
  length xe = length ye ->
  xe <> [] ->
  is_ok (gep (with_default_c p)) = true ->
  is_ok (gep (with_default_c p')) = true ->
  Rabs tiltx < PI / 2 ->
  Rabs tilty < PI / 2 ->
  fst (txdelay3Plane gep fmin (PParam p') (PFloat tiltx) (PFloat tilty))
  = fst (txdelay3Plane gep fmin (PParam p) (PFloat tiltx) (PFloat tilty)).
Proof.
  intros He He' Hc Hl Hne Hg Hg' Hx Hy. unfold txdelay3Plane.
  pose proof (tilt_ok_true _ _ Hx Hy) as Ht.
  pose proof (plane_wave_run gep fmin p xe ye tiltx tilty He Hl Hne Hg Ht) as H.
  cbv zeta in H. rewrite H. clear H.
  assert (Hl' : length (map (fun x => x + dx) xe)
                = length (map (fun y => y + dy) ye))
    by (now rewrite !length_map).
  assert (Hne' : map (fun x => x + dx) xe <> [])
    by (destruct xe; [contradiction|discriminate]).
  pose proof (plane_wave_run gep fmin p' _ _ tiltx tilty He' Hl' Hne' Hg' Ht)
    as H.
  cbv zeta in H. rewrite H. clear H. cbn [fst].
  do 2 f_equal. rewrite map2_map_map.
  assert (Hv : velocity p' = velocity p) by (unfold velocity; now rewrite Hc).
  rewrite Hv.
  set (k := (dx * sin tilty - dy * sin tiltx) / velocity p).
  rewrite <- (shifted_map_plus
                (map2 (DelayLawSpec.plane_delay (velocity p) tiltx tilty) xe ye)
                k).
  f_equal. rewrite map_map2. apply map2_ext. intros x y.
  unfold DelayLawSpec.plane_delay, k, Rdiv. ring.
Qed.

(** ** X4: the firing order of a point focus *)

Lemma focus_order
        (gep : Param -> result (list R * list R * list R * list R))
        (fmin : (R -> R) -> R -> R -> R -> R)
        (p : Param) (xe ye : list R) (x0 y0 z0 : R) (i j : nat) :
  elements p = Some [xe; ye] ->
  length xe = length ye ->
  is_ok (gep (with_default_c p)) = true ->
  0 < velocity p ->
  (i < length xe)%nat ->
  (j < length xe)%nat ->
  DelayLawSpec.point_distance x0 y0 z0 (nth j xe 0) (nth j ye 0)
  <= DelayLawSpec.point_distance x0 y0 z0 (nth i xe 0) (nth i ye 0) ->
  exists row,
    fst (txdelay3Focused gep fmin (PParam p) (PFloat x0) (PFloat y0) (PFloat z0))
    = Ok [row] /\
    length row = length xe /\
    (0 < z0 -> nth i row 0 <= nth j row 0) /\
    (z0 < 0 -> nth j row 0 <= nth i row 0).
Proof.
  intros He Hl Hg Hc Hi Hj Hd. unfold txdelay3Focused.
  assert (Hne : xe <> []) by (destruct xe; [cbn in Hi; lia|discriminate]).
  pose proof (point_focus_run gep fmin p xe ye x0 y0 z0 He Hl Hne Hg) as H.
  cbv zeta in H. rewrite H. clear H. cbn [fst].
  set (raw := map2 (DelayLawSpec.point_delay (velocity p) x0 y0 z0) xe ye).
  assert (Hlen : length raw = length xe) by (unfold raw; now apply map2_length).
  exists (shifted raw). split; [reflexivity|].
  split; [now rewrite shifted_length|].
  rewrite !nth_shifted by lia. unfold raw.
  rewrite (nth_map2 _ _ _ _ 0 0 0 Hl Hi), (nth_map2 _ _ _ _ 0 0 0 Hl Hj).
  unfold DelayLawSpec.point_delay.
  set (di := DelayLawSpec.point_distance x0 y0 z0 (nth i xe 0) (nth i ye 0)) in *.
  set (dj := DelayLawSpec.point_distance x0 y0 z0 (nth j xe 0) (nth j ye 0)) in *.
  assert (Hinv : 0 < / velocity p) by now apply Rinv_0_lt_compat.
  unfold Rdiv. split; intros Hz.
  - assert (Hs : sign z0 = 1)
      by (unfold sign; destruct (Rlt_dec 0 z0); [reflexivity|contradiction]).
    rewrite Hs. nra.
  - assert (Hs : sign z0 = -1).
    { unfold sign. destruct (Rlt_dec 0 z0); [lra|].
      destruct (Rlt_dec z0 0); [reflexivity|contradiction]. }
    rewrite Hs. nra.
Qed.

(** X4. With a positive velocity and a focus below the array ([z0 > 0]) an
    element that is farther from the focus never fires later than a
    nearer one; for a virtual source ([z0 < 0]) the order is reversed. *)
Theorem point_focus_firing_order
        (gep : Param -> result (list R * list R * list R * list R))
        (fmin : (R -> R) -> R -> R -> R -> R)
        (p : Param) (xe ye : list R) (x0 y0 z0 : R) (i j : nat) :
  elements p = Some [xe; ye] ->
  length xe = length ye ->
  is_ok (gep (with_default_c p)) = true ->
  0 < velocity p ->
  (i < length xe)%nat ->
  (j < length xe)%nat ->
  DelayLawSpec.point_distance x0 y0 z0 (nth j xe 0) (nth j ye 0)
  <= DelayLawSpec.point_distance x0 y0 z0 (nth i xe 0) (nth i ye 0) ->
  exists row,
    fst (txdelay3Focused gep fmin (PParam p) (PFloat x0) (PFloat y0) (PFloat z0))
    = Ok [row] /\
    length row = length xe /\
    (0 < z0 -> nth i row 0 <= nth j row 0) /\
    (z0 < 0 -> nth j row 0 <= nth i row 0).
Proof. exact (focus_order gep fmin p xe ye x0 y0 z0 i j). Qed.

(** ** X5: a failing call leaves [TXdelay] alone *)

Lemma reads_keeps {A} (m : M A) : reads m -> keeps_TXdelay m.
Proof. intros H p r p' E. now rewrite (H _ _ _ E). Qed.

Lemma reads_writes_on_success (m : M matrix) : reads m -> writes_on_success m.
Proof. intros H p r p' E. left. now rewrite (H _ _ _ E). Qed.

Lemma keeps_bind_writes {A} (m : M A) (k : A -> M matrix) :
  keeps_TXdelay m -> (forall a, writes_on_success (k a)) ->
  writes_on_success (bind m k).
Proof.
  intros Hm Hk p r p' E. unfold bind in E.
  destruct (m p) as [[a|e] p1] eqn:Em.
  - rewrite <- (Hm _ _ _ Em). eapply Hk; exact E.
  - inversion E; subst. left. eapply Hm; exact Em.
Qed.

Lemma normalize_nonempty (raw d : matrix) :
  normalize raw = Ok d -> nonempty_rows d.
Proof.
  intros H. apply normalize_ok in H as [_ HF].
  eapply Forall_impl; [|exact HF]. intros row [Hm _] ->. discriminate.
Qed.

Section Careful.

Variable gep : Param -> result (list R * list R * list R * list R).
Variable fmin : (R -> R) -> R -> R -> R -> R.

Lemma keeps_geometry : keeps_TXdelay (geometry gep).
Proof.
  intros p r p'. unfold geometry, bind at 1, get, isfield.
  destruct (elements p) as [rows|].
  2:{ cbn. intros E; inversion E; reflexivity. }
  cbn [assert]. unfold bind at 1, ret at 1. unfold bind at 1.
  destruct (assert _ _ p) as [[u|e] p1] eqn:Ea.
  2:{ apply reads_assert in Ea. intros E; inversion E; subst. reflexivity. }
  apply reads_assert in Ea; subst p1.
  destruct (c p) as [v|] eqn:Ec.
  - unfold bind, ret, get, lift. rewrite Ec.
    destruct (gep p); intros E; inversion E; reflexivity.
  - unfold bind, ret, get, lift, modify. cbn [c set_c].
    destruct (gep (set_c 1540 p)); intros E; inversion E; reflexivity.
Qed.

Lemma writes_call self x0 y0 z0 :
  careful_callee self ->
  writes_on_success
    (call self (fun param => [PFloat x0; PFloat y0; PFloat z0; PParam param])).
Proof.
  intros Hself p r p' E. unfold call in E.
  destruct (self _) as [r0 [q'|]] eqn:Es; inversion E; subst.
  - eapply Hself; exact Es.
  - now left.
Qed.

Lemma writes_diverging self xe ye cv args :
  careful_callee self -> writes_on_success (diverging fmin self xe ye cv args).
Proof.
  intros Hself. unfold diverging.
  repeat first
         [ apply keeps_bind_writes; [apply reads_keeps; solve [reads_tac]|intros ?]
         | match goal with
           | |- writes_on_success (match ?x with _ => _ end) => destruct x
           end ].
  all: try (now apply writes_call).
  all: apply reads_writes_on_success; reads_tac.
Qed.

Lemma writes_raw_delays self mode args :
  careful_callee self -> writes_on_success (raw_delays gep fmin self mode args).
Proof.
  intros Hself. unfold raw_delays.
  apply keeps_bind_writes; [apply keeps_geometry|].
  intros [[xe ye] cv]. destruct mode.
  - apply reads_writes_on_success, reads_origo.
  - now apply writes_diverging.
  - apply reads_writes_on_success, reads_plane_wave.
Qed.

Lemma careful_body self args param mode r p' :
  careful_callee self ->
  dispatch args = Ok (param, mode) ->
  txdelay3_body gep fmin self args = (r, Some p') ->
  match r with
  | Raise _ => TXdelay p' = TXdelay param
  | Ok d => nonempty_rows d /\ TXdelay p' = Some d
  end.
Proof.
  intros Hself Hd. unfold txdelay3_body. rewrite Hd. unfold bind.
  destruct (raw_delays gep fmin self mode args param) as [[raw|e] p1] eqn:Eraw.
  - unfold finish, bind, lift, modify, ret.
    destruct (normalize raw) as [d|e] eqn:En; intros E; inversion E; subst.
    + split; [now apply normalize_nonempty in En|reflexivity].
    + destruct (writes_raw_delays self mode args Hself _ _ _ Eraw)
        as [H|(d & Hd' & Hne)]; [exact H|].
      inversion Hd'; subst d.
      rewrite (normalize_total _ Hne) in En. discriminate.
  - intros E; inversion E; subst.
    destruct (writes_raw_delays self mode args Hself _ _ _ Eraw)
      as [H|(d & Hd' & _)]; [exact H|discriminate].
Qed.

Lemma careful_inner : careful_callee (txdelay3_inner gep fmin).
Proof.
  intros x0 y0 z0 q r q' E. unfold txdelay3_inner in E.
  eapply careful_body in E; [| |reflexivity].
  - destruct r as [d|e]; [right; exists d; tauto|now left].
  - intros ? ? ? ? ? ? H; discriminate.
Qed.

End Careful.

(** X5. A call that raises leaves the [TXdelay] field of the configuration
    as it was: no partial result is stored. A call that returns stores
    what it returns, and every returned row has entries. *)
Theorem failing_call_keeps_TXdelay
        (gep : Param -> result (list R * list R * list R * list R))
        (fmin : (R -> R) -> R -> R -> R -> R)
        (args : list pyval) (param : Param) (mode : beam)
        (r : result matrix) (p' : Param) :
  dispatch args = Ok (param, mode) ->
  txdelay3 gep fmin args = (r, Some p') ->
  match r with
  | Raise _ => TXdelay p' = TXdelay param
  | Ok d => nonempty_rows d /\ TXdelay p' = Some d
  end.
Proof.
  intros Hd H. eapply careful_body; [apply careful_inner|exact Hd|exact H].
Qed.

(** ** X6: missing geometry *)

(** X6. When the configuration has no [elements] field, or the field does
    not have two rows, a call in any of the three modes fails the
    assertion of line 174 or 175 and leaves the configuration exactly as
    supplied: no default velocity is written. *)
Theorem missing_geometry
        (gep : Param -> result (list R * list R * list R * list R))
        (fmin : (R -> R) -> R -> R -> R -> R)
        (args : list pyval) (param : Param) (mode : beam) :
  dispatch args = Ok (param, mode) ->
  (elements param = None ->
   txdelay3 gep fmin args
   = (Raise (AssertionError "PARAM.elements must contain the x- and y-locations of the transducer elements."),
      Some param)) /\
  (forall rows, elements param = Some rows -> length rows <> 2%nat ->
   txdelay3 gep fmin args
   = (Raise (AssertionError "PARAM.elements must have two rows that contain the x (1st row) and y (2nd row) coordinates of the transducer elements."),
      Some param)).
Proof.
  intros Hd. split.
  - intros He. unfold txdelay3, txdelay3_body. rewrite Hd.
    unfold raw_delays, geometry, bind, get, isfield. rewrite He. reflexivity.
  - intros rows He Hn. unfold txdelay3, txdelay3_body. rewrite Hd.
    unfold raw_delays, geometry, bind, get, isfield. rewrite He. cbn.
    apply Nat.eqb_neq in Hn. rewrite Hn. reflexivity.
Qed.

(** ** X7 and X8: rejected tilts and solid angles *)

Lemma Rltb_false (x y : R) : ~ x < y -> Rltb x y = false.
Proof. intros H; unfold Rltb; destruct (Rlt_dec x y); [contradiction|reflexivity]. Qed.

Lemma Rleb_false (x y : R) : ~ x <= y -> Rleb x y = false.
Proof. intros H; unfold Rleb; destruct (Rle_dec x y); [contradiction|reflexivity]. Qed.

Lemma tilt_ok_false (tiltx tilty : R) :
  ~ (Rabs tiltx < PI / 2 /\ Rabs tilty < PI / 2) -> tilt_ok tiltx tilty = false.
Proof.
  intros H. unfold tilt_ok, Rltb.
  destruct (Rlt_dec (Rabs tiltx) (PI / 2)), (Rlt_dec (Rabs tilty) (PI / 2));
    try reflexivity. tauto.
Qed.

(** X7. A plane-wave call whose tilt angles are not both strictly inside
    [(-pi/2, pi/2)] fails the assertion of line 197, and a call whose
    tilts are two sequences fails the assertion of line 196; in both
    cases the default velocity has already been written and [TXdelay]
    has not. *)
Theorem plane_wave_rejects
        (gep : Param -> result (list R * list R * list R * list R))
        (fmin : (R -> R) -> R -> R -> R -> R)
        (p : Param) (xe ye : list R) :
  elements p = Some [xe; ye] ->
  is_ok (gep (with_default_c p)) = true ->
  (forall tiltx tilty,
      ~ (Rabs tiltx < PI / 2 /\ Rabs tilty < PI / 2) ->
      txdelay3Plane gep fmin (PParam p) (PFloat tiltx) (PFloat tilty)
      = (Raise (AssertionError "The tilt angles must verify |TILTx| and |TILTy| < pi/2"),
         Some (with_default_c p))) /\
  (forall tiltx tilty,
      txdelay3Plane gep fmin (PParam p) (PList tiltx) (PList tilty)
      = (Raise (AssertionError "TILTx and TILTy must be two scalars."),
         Some (with_default_c p))).
Proof.
  intros He Hg. split.
  - intros tiltx tilty Ht. apply tilt_ok_false in Ht.
    unfold txdelay3Plane. apply txdelay3_raw_raise.
    unfold txdelay3_raw. cbn [dispatch].
    rewrite (raw_delays_run _ _ _ _ _ _ _ _ He Hg).
    unfold plane_wave, arg. cbn [nth py_add]. unfold bind, lift. cbn.
    rewrite Ht. reflexivity.
  - intros tiltx tilty.
    unfold txdelay3Plane. apply txdelay3_raw_raise.
    unfold txdelay3_raw. cbn [dispatch].
    rewrite (raw_delays_run _ _ _ _ _ _ _ _ He Hg).
    reflexivity.
Qed.

(** X8. A diverging-wave call checks the tilts first, then the upper bound
    of the solid angle, then its sign: tilts outside [(-pi/2, pi/2)], a
    solid angle above [2 pi] and a negative solid angle fail with the
    assertions of lines 206, 207 and 208, before the element layout is
    looked at. *)
Theorem diverging_rejects
        (gep : Param -> result (list R * list R * list R * list R))
        (fmin : (R -> R) -> R -> R -> R -> R)
        (p : Param) (xe ye : list R) (tiltx tilty omega : R) :
  elements p = Some [xe; ye] ->
  is_ok (gep (with_default_c p)) = true ->
  (~ (Rabs tiltx < PI / 2 /\ Rabs tilty < PI / 2) ->
   txdelay3Diverging gep fmin (PParam p) (PFloat tiltx) (PFloat tilty)
                     (PFloat omega)
   = (Raise (AssertionError "The tilt angles must verify |TILTx| and |TILTy| < pi/2"),
      Some (with_default_c p))) /\
  (Rabs tiltx < PI / 2 -> Rabs tilty < PI / 2 -> 2 * PI < omega ->
   txdelay3Diverging gep fmin (PParam p) (PFloat tiltx) (PFloat tilty)
                     (PFloat omega)
   = (Raise (AssertionError "The solid angle must be smaller than 2pi"),
      Some (with_default_c p))) /\
  (Rabs tiltx < PI / 2 -> Rabs tilty < PI / 2 -> omega < 0 ->
   txdelay3Diverging gep fmin (PParam p) (PFloat tiltx) (PFloat tilty)
                     (PFloat omega)
   = (Raise (AssertionError "The solid angle must be nonnegative"),
      Some (with_default_c p))).
Proof.
  intros He Hg.
  assert (Hstart : forall r,
             diverging fmin (txdelay3_inner gep fmin) xe ye (velocity p)
                       [PParam p; PFloat tiltx; PFloat tilty; PFloat omega]
                       (with_default_c p) = r ->
             txdelay3_raw gep fmin
                          [PParam p; PFloat tiltx; PFloat tilty; PFloat omega]
             = (fst r, Some (snd r))).
  { intros r Hr. unfold txdelay3_raw. cbn [dispatch].
    rewrite (raw_delays_run _ _ _ _ _ _ _ _ He Hg), Hr.
    now destruct r. }
  unfold txdelay3Diverging. repeat split.
  - intros Ht. apply tilt_ok_false in Ht. apply txdelay3_raw_raise.
    erewrite Hstart; [|reflexivity].
    unfold diverging, arg. cbn [nth py_add]. unfold bind, lift. cbn.
    rewrite Ht. reflexivity.
  - intros Hx Hy Ho. pose proof (tilt_ok_true _ _ Hx Hy) as Ht.
    apply txdelay3_raw_raise. erewrite Hstart; [|reflexivity].
    unfold diverging, arg. cbn [nth py_add]. unfold bind, lift. cbn.
    rewrite Ht. cbn. rewrite Rleb_false by lra. reflexivity.
  - intros Hx Hy Ho. pose proof (tilt_ok_true _ _ Hx Hy) as Ht.
    pose proof PI_RGT_0.
    apply txdelay3_raw_raise. erewrite Hstart; [|reflexivity].
    unfold diverging, arg. cbn [nth py_add]. unfold bind, lift. cbn.
    rewrite Ht. cbn. rewrite Rleb_true by lra. cbn.
    rewrite Rleb_false by lra. reflexivity.
Qed.

(** ** X9: an array without elements *)

(** X9. On an array with no element, a well-formed plane-wave call and a
    well-formed point-focus call both fail in the normalisation of line
    264, with the ValueError of [np.min] on an empty row. *)
Theorem empty_array_fails
        (gep : Param -> result (list R * list R * list R * list R))
        (fmin : (R -> R) -> R -> R -> R -> R)
        (p : Param) (tiltx tilty x0 y0 z0 : R) :
  elements p = Some [[]; []] ->
  is_ok (gep (with_default_c p)) = true ->
  (Rabs tiltx < PI / 2 -> Rabs tilty < PI / 2 ->
   txdelay3Plane gep fmin (PParam p) (PFloat tiltx) (PFloat tilty)
   = (Raise (ValueError "zero-size array to reduction operation minimum which has no identity"),
      Some (with_default_c p))) /\
  txdelay3Focused gep fmin (PParam p) (PFloat x0) (PFloat y0) (PFloat z0)
  = (Raise (ValueError "zero-size array to reduction operation minimum which has no identity"),
     Some (with_default_c p)).
Proof.
  intros He Hg. split.
  - intros Hx Hy. pose proof (tilt_ok_true _ _ Hx Hy) as Ht.
    pose proof (plane_wave_raw gep fmin p [] [] tiltx tilty He Hg Ht) as Hraw.
    unfold txdelay3Plane, txdelay3, txdelay3_body.
    unfold txdelay3_raw in Hraw. cbn [dispatch] in *.
    unfold bind at 1.
    destruct (raw_delays _ _ _ _ _ p) as [r p1]. inversion Hraw; subst.
    reflexivity.
  - pose proof (point_focus_raw gep fmin p [] [] (PFloat x0) (PFloat y0)
                  (PFloat z0) x0 y0 z0 He Hg eq_refl eq_refl eq_refl) as Hraw.
    unfold txdelay3Focused, txdelay3, txdelay3_body.
    unfold txdelay3_raw in Hraw. cbn [dispatch] in *.
    unfold bind at 1.
    destruct (raw_delays _ _ _ _ _ p) as [r p1]. inversion Hraw; subst.
    reflexivity.
Qed.

(** ** X10: azimuth and elevation are inverted exactly *)

Lemma sqrt_1_plus_sqr_pos (t : R) : 0 < sqrt (1 + t²).
Proof. apply sqrt_lt_R0. pose proof (Rle_0_sqr t). lra. Qed.

Lemma hypot_scale (x y : R) :
  x <> 0 -> sqrt (x * x + y * y) = Rabs x * sqrt (1 + (y / x)²).
Proof.
  intros Hx. rewrite <- (sqrt_Rsqr_abs x), <- sqrt_mult.
  - f_equal. unfold Rsqr. field. exact Hx.
  - apply Rle_0_sqr.
  - pose proof (Rle_0_sqr (y / x)). lra.
Qed.

(** [np.arctan2(y, x)] is the angle of the point [(x, y)]: with the
    radius [hypot(x, y)] it gives the point back. *)
Lemma arctan2_polar (y x : R) :
  sqrt (x * x + y * y) * cos (arctan2 y x) = x /\
  sqrt (x * x + y * y) * sin (arctan2 y x) = y.
Proof.
  unfold arctan2.
  destruct (Rlt_dec 0 x) as [Hx|Hx].
  - rewrite hypot_scale by lra. rewrite Rabs_right by lra.
    rewrite cos_atan, sin_atan.
    pose proof (sqrt_1_plus_sqr_pos (y / x)).
    split; field; lra.
  - destruct (Rlt_dec x 0) as [Hx'|Hx'].
    + rewrite hypot_scale by lra. rewrite Rabs_left by lra.
      pose proof (sqrt_1_plus_sqr_pos (y / x)).
      destruct (Rle_dec 0 y).
      * rewrite neg_cos, neg_sin, cos_atan, sin_atan. split; field; lra.
      * rewrite cos_minus, sin_minus, cos_PI, sin_PI, cos_atan, sin_atan.
        split; field; lra.
    + assert (x = 0) by lra. subst x.
      replace (0 * 0 + y * y) with (y * y) by ring.
      destruct (Rlt_dec 0 y) as [Hy|Hy].
      * rewrite sqrt_square by lra. rewrite cos_PI2, sin_PI2. split; ring.
      * destruct (Rlt_dec y 0) as [Hy'|Hy'].
        -- replace (y * y) with ((- y) * (- y)) by ring.
           rewrite sqrt_square by lra.
           rewrite cos_neg, sin_neg, cos_PI2, sin_PI2. split; ring.
        -- assert (y = 0) by lra. subst y.
           rewrite Rmult_0_l, sqrt_0. split; ring.
Qed.

Lemma virtual_source_polar
        (fmin : (R -> R) -> R -> R -> R -> R)
        (tiltx tilty omega l b : R) :
  let x := - sin tilty * cos tiltx in
  let y := sin tiltx in
  let z := - cos tilty * cos tiltx in
  let az := arctan2 y x in
  let el := arctan2 z (sqrt (x ^ 2 + y ^ 2)) in
  let r := fmin (fun r => Rabs (solidAngle r l b az el - omega))
                0 (2 * PI) (1 / 1000000) in
  virtual_source fmin tiltx tilty omega l b = (r * x, r * y, r * z).
Proof.
  intros x y z az el r. unfold virtual_source.
  fold x y z. fold az. fold el. fold r.
  set (h := sqrt (x ^ 2 + y ^ 2)) in *.
  assert (Hh : h = sqrt (x * x + y * y)) by (unfold h; f_equal; ring).
  destruct (arctan2_polar y x) as [Hc Hs]. fold az in Hc, Hs.
  rewrite <- Hh in Hc, Hs.
  destruct (arctan2_polar z h) as [Hc' Hs']. fold el in Hc', Hs'.
  assert (H1 : h * h + z * z = 1).
  { rewrite Hh, sqrt_sqrt.
    - unfold x, y, z.
      pose proof (sin2_cos2 tiltx) as Hx. pose proof (sin2_cos2 tilty) as Hy.
      unfold Rsqr in Hx, Hy. nra.
    - nra. }
  rewrite H1, sqrt_1, !Rmult_1_l in Hc', Hs'.
  rewrite Hc', Hs'.
  rewrite (Rmult_assoc r h (cos az)), (Rmult_assoc r h (sin az)), Hc, Hs.
  reflexivity.
Qed.

(** X10. The virtual source lies at the distance [r] found by the
    minimiser, in the direction of [(0,0,-1)] rotated by the two tilts:
    the conversion to azimuth and elevation (lines 225-226) and back
    (lines 241-244) returns [r] times the unit vector of lines
    219-221, for all tilts. *)
Theorem virtual_source_direction
        (fmin : (R -> R) -> R -> R -> R -> R)
        (tiltx tilty omega l b : R) :
  let x := - sin tilty * cos tiltx in
  let y := sin tiltx in
  let z := - cos tilty * cos tiltx in
  let az := arctan2 y x in
  let el := arctan2 z (sqrt (x ^ 2 + y ^ 2)) in
  let r := fmin (fun r => Rabs (solidAngle r l b az el - omega))
                0 (2 * PI) (1 / 1000000) in
  virtual_source fmin tiltx tilty omega l b = (r * x, r * y, r * z).
Proof. exact (virtual_source_polar fmin tiltx tilty omega l b). Qed.

(** X11. For tilts strictly inside [(-pi/2, pi/2)] and a minimiser that
    answers a nonnegative distance, the virtual source is never in front
    of the array: [z0 <= 0]. *)
Theorem virtual_source_behind
        (fmin : (R -> R) -> R -> R -> R -> R)
        (tiltx tilty omega l b : R) :
  (forall f, 0 <= fmin f 0 (2 * PI) (1 / 1000000)) ->
  Rabs tiltx < PI / 2 ->
  Rabs tilty < PI / 2 ->
  snd (virtual_source fmin tiltx tilty omega l b) <= 0.
Proof.
  intros Hr Hx Hy.
  rewrite virtual_source_polar. cbn [snd].
  assert (0 < cos tiltx).
  { apply cos_gt_0; [apply Rabs_def2 in Hx|apply Rabs_def2 in Hx]; lra. }
  assert (0 < cos tilty).
  { apply cos_gt_0; [apply Rabs_def2 in Hy|apply Rabs_def2 in Hy]; lra. }
  assert (Hp : 0 < cos tilty * cos tiltx) by now apply Rmult_lt_0_compat.
  match goal with
  | |- ?r * _ <= 0 =>
      assert (Hr0 : 0 <= r) by apply Hr;
      pose proof (Rmult_le_pos _ _ Hr0 (Rlt_le _ _ Hp)); lra
  end.
Qed.

(** ** X12 to X14: the solid angle *)



Lemma hypot_opp_r (x y : R) : hypot x (- y) = hypot x y.
Proof. unfold hypot. f_equal. ring. Qed.





(** X13. [solidAngle] does not change when the azimuth or the elevation
    changes sign. *)
Theorem solidAngle_even (r l b az el : R) :
  solidAngle r l b (- az) el = solidAngle r l b az el /\
  solidAngle r l b az (- el) = solidAngle r l b az el.
Proof.
  split; unfold solidAngle; cbv zeta.
  - rewrite cos_neg, sin_neg.
    replace (b / 2 + r * cos el * - sin az)
      with (b / 2 - r * cos el * sin az) by ring.
    replace (b / 2 - r * cos el * - sin az)
      with (b / 2 + r * cos el * sin az) by ring.
    ring.
  - rewrite cos_neg, sin_neg.
    replace (r * - sin el) with (- (r * sin el)) by ring.
    rewrite !hypot_opp_r. reflexivity.
Qed.




(** ** X15: the plaid test and the order of the elements *)

(** X15. The verdict of the plaid test depends only on the multiset of the
    x-values and the multiset of the y-values: listing the coordinates in
    another order, even pairing the x- and y-values differently, does
    not change it. *)
Theorem plaid_test_reorder (xe ye xe' ye' : list R) :
  Permutation xe xe' -> Permutation ye ye' ->
  plaid_test xe ye = plaid_test xe' ye'.
Proof.
  intros Hx Hy. unfold plaid_test, unique.
  now rewrite (sort_perm_eq xe xe' Hx), (sort_perm_eq ye ye' Hy).
Qed.

(** ** X16: the two ends of a focal line *)

Lemma line_distance_sym (P1 P2 : vec3) (x y : R) :
  DelayLawSpec.line_distance P1 P2 x y = DelayLawSpec.line_distance P2 P1 x y.
Proof.
  destruct P1 as [[a1 a2] a3], P2 as [[b1 b2] b3].
  unfold DelayLawSpec.line_distance. cbn.
  f_equal; [|f_equal]; f_equal; ring.
Qed.

(** X16. Giving the two points of a focal line in the other order swaps
    the two returned rows and changes nothing else. *)
Theorem line_focus_swap
        (gep : Param -> result (list R * list R * list R * list R))
        (fmin : (R -> R) -> R -> R -> R -> R)
        (p : Param) (xe ye : list R) (x01 x02 y01 y02 z01 z02 : R) :
  elements p = Some [xe; ye] ->
  length xe = length ye ->
  xe <> [] ->
  is_ok (gep (with_default_c p)) = true ->
  exists row1 row2,
    fst (txdelay3Focused gep fmin (PParam p) (PList [x01; x02])
                         (PList [y01; y02]) (PList [z01; z02]))
    = Ok [row1; row2] /\
    fst (txdelay3Focused gep fmin (PParam p) (PList [x02; x01])
                         (PList [y02; y01]) (PList [z02; z01]))
    = Ok [row2; row1].
Proof.
  intros He Hl Hne Hg. unfold txdelay3Focused.
  pose proof (line_focus_raw gep fmin p xe ye
                (PList [x01; x02]) (PList [y01; y02]) (PList [z01; z02])
                x01 x02 y01 y02 z01 z02 He Hg eq_refl eq_refl eq_refl) as H1.
  pose proof (line_focus_raw gep fmin p xe ye
                (PList [x02; x01]) (PList [y02; y01]) (PList [z02; z01])
                x02 x01 y02 y01 z02 z01 He Hg eq_refl eq_refl eq_refl) as H2.
  cbv zeta in H1, H2.
  rewrite (map2_ext _ _ xe ye
             (line_distance_sym (x02, y02, z02) (x01, y01, z01))) in H2.
  set (d := map2 (DelayLawSpec.line_distance (x01, y01, z01) (x02, y02, z02))
                 xe ye) in *.
  assert (Hd : d <> []) by (unfold d; now apply map2_nonempty).
  assert (Hrow : forall z, map (fun di => - di / velocity p * sign z) d <> []).
  { intros z E. apply map_eq_nil in E. contradiction. }
  rewrite (txdelay3_of_raw gep fmin _ _ _ H1)
    by (repeat constructor; apply Hrow).
  rewrite (txdelay3_of_raw gep fmin _ _ _ H2)
    by (repeat constructor; apply Hrow).
  cbn [fst map]. eexists; eexists; split; reflexivity.
Qed.

(** ** X17: the default velocity *)

Lemma geometry_default
      (gep : Param -> result (list R * list R * list R * list R))
      (p : Param) :
  c p = None ->
  geometry gep p = geometry gep (set_c 1540 p) \/
  exists e, geometry gep p = (Raise e, p) /\
            geometry gep (set_c 1540 p) = (Raise e, set_c 1540 p).
Proof.
  intros Hc.
  unfold geometry, bind, get, isfield, assert, ret, raise, modify, lift,
    type_error.
  cbn [elements c set_c]. rewrite Hc.
  destruct (elements p) as [rows|].
  2:{ right. eexists. split; reflexivity. }
  destruct (Nat.eqb (length rows) 2).
  2:{ right. eexists. split; reflexivity. }
  left. cbn [c set_c]. reflexivity.
Qed.

Lemma default_velocity_run
      (gep : Param -> result (list R * list R * list R * list R))
      (k : list R * list R * R -> M matrix) (p : Param) :
  c p = None ->
  fst ((delays <- (g <- geometry gep;; k g);; finish delays) p)
  = fst ((delays <- (g <- geometry gep;; k g);; finish delays) (set_c 1540 p)).
Proof.
  intros Hc. unfold bind.
  destruct (geometry_default gep p Hc) as [E|(e & E1 & E2)].
  - now rewrite E.
  - now rewrite E1, E2.
Qed.

(** X17. Leaving the velocity out of the configuration gives the same
    outcome as supplying [c = 1540]: the same delays or the same error,
    in each of the three modes. *)
Theorem default_velocity_is_1540
        (gep : Param -> result (list R * list R * list R * list R))
        (fmin : (R -> R) -> R -> R -> R -> R)
        (p : Param) :
  c p = None ->
  (forall tiltx tilty,
      fst (txdelay3Plane gep fmin (PParam p) tiltx tilty)
      = fst (txdelay3Plane gep fmin (PParam (set_c 1540 p)) tiltx tilty)) /\
  (forall x0 y0 z0,
      fst (txdelay3Focused gep fmin (PParam p) x0 y0 z0)
      = fst (txdelay3Focused gep fmin (PParam (set_c 1540 p)) x0 y0 z0)) /\
  (forall tiltx tilty omega,
      fst (txdelay3Diverging gep fmin (PParam p) (PFloat tiltx) (PFloat tilty)
                             (PFloat omega))
      = fst (txdelay3Diverging gep fmin (PParam (set_c 1540 p))
                               (PFloat tiltx) (PFloat tilty) (PFloat omega))).
Proof.
  intros Hc. repeat split.
  - intros tiltx tilty.
    unfold txdelay3Plane, txdelay3, txdelay3_body. cbn [dispatch].
    pose proof (default_velocity_run gep
                  (fun g => let '(xe, ye, cv) := g in
                            plane_wave xe ye cv [PParam p; tiltx; tilty])
                  p Hc) as H.
    destruct ((delays <- _;; finish delays) p) as [r1 s1] eqn:E1 in H.
    destruct ((delays <- _;; finish delays) (set_c 1540 p)) as [r2 s2] eqn:E2 in H.
    cbn [fst] in H. subst r2.
    change (raw_delays gep fmin (txdelay3_inner gep fmin) PlaneWave
              [PParam p; tiltx; tilty])
      with (g <- geometry gep;;
            (let '(xe, ye, cv) := g in
             plane_wave xe ye cv [PParam p; tiltx; tilty])).
    change (raw_delays gep fmin (txdelay3_inner gep fmin) PlaneWave
              [PParam (set_c 1540 p); tiltx; tilty])
      with (g <- geometry gep;;
            (let '(xe, ye, cv) := g in
             plane_wave xe ye cv [PParam p; tiltx; tilty])).
    now rewrite E1, E2.
  - intros x0 y0 z0.
    unfold txdelay3Focused, txdelay3, txdelay3_body. cbn [dispatch].
    pose proof (default_velocity_run gep
                  (fun g => let '(xe, ye, cv) := g in
                            origo xe ye cv [x0; y0; z0; PParam p])
                  p Hc) as H.
    destruct ((delays <- _;; finish delays) p) as [r1 s1] eqn:E1 in H.
    destruct ((delays <- _;; finish delays) (set_c 1540 p)) as [r2 s2] eqn:E2 in H.
    cbn [fst] in H. subst r2.
    change (raw_delays gep fmin (txdelay3_inner gep fmin) Origo
              [x0; y0; z0; PParam p])
      with (g <- geometry gep;;
            (let '(xe, ye, cv) := g in
             origo xe ye cv [x0; y0; z0; PParam p])).
    change (raw_delays gep fmin (txdelay3_inner gep fmin) Origo
              [x0; y0; z0; PParam (set_c 1540 p)])
      with (g <- geometry gep;;
            (let '(xe, ye, cv) := g in
             origo xe ye cv [x0; y0; z0; PParam p])).
    now rewrite E1, E2.
  - intros tiltx tilty omega.
    unfold txdelay3Diverging, txdelay3, txdelay3_body. cbn [dispatch].
    pose proof (default_velocity_run gep
                  (fun g => let '(xe, ye, cv) := g in
                            diverging fmin (txdelay3_inner gep fmin) xe ye cv
                                      [PParam p; PFloat tiltx; PFloat tilty;
                                       PFloat omega])
                  p Hc) as H.
    destruct ((delays <- _;; finish delays) p) as [r1 s1] eqn:E1 in H.
    destruct ((delays <- _;; finish delays) (set_c 1540 p)) as [r2 s2] eqn:E2 in H.
    cbn [fst] in H. subst r2.
    change (raw_delays gep fmin (txdelay3_inner gep fmin) DivergingWave
              [PParam p; PFloat tiltx; PFloat tilty; PFloat omega])
      with (g <- geometry gep;;
            (let '(xe, ye, cv) := g in
             diverging fmin (txdelay3_inner gep fmin) xe ye cv
                       [PParam p; PFloat tiltx; PFloat tilty; PFloat omega])).
    change (raw_delays gep fmin (txdelay3_inner gep fmin) DivergingWave
              [PParam (set_c 1540 p); PFloat tiltx; PFloat tilty; PFloat omega])
      with (g <- geometry gep;;
            (let '(xe, ye, cv) := g in
             diverging fmin (txdelay3_inner gep fmin) xe ye cv
                       [PParam p; PFloat tiltx; PFloat tilty; PFloat omega])).
    now rewrite E1, E2.
Qed.

(** ** Runs of the statements above on example data *)

Lemma Rabs_0_lt_PI2 : Rabs 0 < PI / 2.
Proof. rewrite Rabs_R0. pose proof PI_RGT_0. lra. Qed.

Lemma zero_in_solid_angle_range : 0 <= 0 <= 2 * PI.
Proof. pose proof PI_RGT_0. lra. Qed.

Lemma sort_grid : sort [0; 1; 0; 1] = [0; 0; 1; 1].
Proof. real_cases. reflexivity. Qed.

Lemma unique_grid : unique [0; 1; 0; 1] = [0; 1].
Proof. unfold unique. rewrite sort_grid. real_cases. reflexivity. Qed.

Lemma grid_is_plaid : PlaidGrid [0; 1; 0; 1] [0; 0; 1; 1].
Proof.
  unfold PlaidGrid. rewrite unique_grid, unique_diag. cbn.
  apply perm_skip, perm_swap.
Qed.

Lemma plaid_grid_accepted_witness :
  plaid_test [0; 1; 0; 1] [0; 0; 1; 1] = Ok true.
Proof.
  exact (plaid_grid_accepted [0; 1; 0; 1] [0; 0; 1; 1] eq_refl grid_is_plaid).
Defined.

Lemma plaid_grid_run : plaid_test [0; 1; 0; 1] [0; 0; 1; 1] = Ok true.
Proof.
  unfold plaid_test. rewrite unique_grid, unique_diag, sort_grid, sort_diag.
  unfold meshgrid_x_flat, meshgrid_y_flat, all_eq, Reqb. real_cases.
  reflexivity.
Qed.

Lemma pair_nonempty : [0; 1] <> [].
Proof. discriminate. Qed.

Lemma grid_nonempty : [0; 1; 0; 1] <> [].
Proof. discriminate. Qed.

Lemma diverging_is_virtual_focus_witness :
  let '(x0, y0, z0) :=
    virtual_source fmin_lo 0 0 0 (aperture [0; 1; 0; 1] (1 / 2))
                   (aperture [0; 0; 1; 1] (1 / 2)) in
  txdelay3Diverging gep_ok fmin_lo (PParam param_grid) (PFloat 0) (PFloat 0)
                    (PFloat 0)
  = txdelay3Focused gep_ok fmin_lo (PParam param_grid)
                    (PFloat x0) (PFloat y0) (PFloat z0).
Proof.
  exact (diverging_is_virtual_focus gep_ok fmin_lo param_grid
           [0; 1; 0; 1] [0; 0; 1; 1] 0 0 0 (1 / 2) (1 / 2)
           eq_refl eq_refl grid_nonempty eq_refl Rabs_0_lt_PI2 Rabs_0_lt_PI2
           zero_in_solid_angle_range plaid_grid_run eq_refl eq_refl).
Defined.

Lemma point_focus_translation_witness :
  fst (txdelay3Focused gep_ok fmin_lo (PParam param_pair_moved)
                       (PFloat (0 + 1)) (PFloat (0 + 2)) (PFloat 1))
  = fst (txdelay3Focused gep_ok fmin_lo (PParam param_pair)
                         (PFloat 0) (PFloat 0) (PFloat 1)).
Proof.
  exact (point_focus_translation gep_ok fmin_lo param_pair param_pair_moved
           [0; 1] [0; 0] 0 0 1 1 2
           eq_refl eq_refl eq_refl eq_refl pair_nonempty eq_refl eq_refl).
Defined.

Lemma plane_wave_translation_witness :
  fst (txdelay3Plane gep_ok fmin_lo (PParam param_pair_moved)
                     (PFloat 0) (PFloat 0))
  = fst (txdelay3Plane gep_ok fmin_lo (PParam param_pair) (PFloat 0) (PFloat 0)).
Proof.
  exact (plane_wave_translation gep_ok fmin_lo param_pair param_pair_moved
           [0; 1] [0; 0] 0 0 1 2
           eq_refl eq_refl eq_refl eq_refl pair_nonempty eq_refl eq_refl
           Rabs_0_lt_PI2 Rabs_0_lt_PI2).
Defined.

Lemma pair_distances :
  DelayLawSpec.point_distance 0 0 1 (nth 0 [0; 1] 0) (nth 0 [0; 0] 0)
  <= DelayLawSpec.point_distance 0 0 1 (nth 1 [0; 1] 0) (nth 1 [0; 0] 0).
Proof.
  unfold DelayLawSpec.point_distance. cbn [nth].
  apply sqrt_le_1_alt. nra.
Qed.

Lemma pair_velocity_positive : 0 < velocity param_pair.
Proof. unfold velocity. cbn. lra. Qed.

Lemma point_focus_firing_order_witness :
  exists row,
    fst (txdelay3Focused gep_ok fmin_lo (PParam param_pair)
                         (PFloat 0) (PFloat 0) (PFloat 1))
    = Ok [row] /\
    length row = length [0; 1] /\
    (0 < 1 -> nth 1 row 0 <= nth 0 row 0) /\
    (1 < 0 -> nth 0 row 0 <= nth 1 row 0).
Proof.
  refine (point_focus_firing_order gep_ok fmin_lo param_pair [0; 1] [0; 0]
            0 0 1 1 0 eq_refl eq_refl eq_refl pair_velocity_positive _ _
            pair_distances); cbn; lia.
Defined.

Lemma failing_call_keeps_TXdelay_witness :
  nonempty_rows [[0; 0]] /\
  TXdelay (set_TXdelay [[0; 0]] param_pair) = Some [[0; 0]].
Proof.
  exact (failing_call_keeps_TXdelay gep_ok fmin_lo
           [PFloat 3; PFloat 4; PFloat 0; PParam param_pair] param_pair Origo
           (Ok [[0; 0]]) _ eq_refl (pair_in_plane_run 3 4)).
Defined.

Lemma missing_geometry_witness :
  txdelay3 gep_ok fmin_lo [PParam param_no_elements; PFloat 0; PFloat 0]
  = (Raise (AssertionError "PARAM.elements must contain the x- and y-locations of the transducer elements."),
     Some param_no_elements).
Proof.
  exact (proj1 (missing_geometry gep_ok fmin_lo
                  [PParam param_no_elements; PFloat 0; PFloat 0]
                  param_no_elements PlaneWave eq_refl) eq_refl).
Defined.

Lemma plane_wave_rejects_witness :
  txdelay3Plane gep_ok fmin_lo (PParam param_pair) (PList [0]) (PList [0])
  = (Raise (AssertionError "TILTx and TILTy must be two scalars."),
     Some (with_default_c param_pair)).
Proof.
  exact (proj2 (plane_wave_rejects gep_ok fmin_lo param_pair [0; 1] [0; 0]
                  eq_refl eq_refl) [0] [0]).
Defined.

Lemma minus_one_below_zero : -1 < 0.
Proof. lra. Qed.

Lemma diverging_rejects_witness :
  txdelay3Diverging gep_ok fmin_lo (PParam param_grid) (PFloat 0) (PFloat 0)
                    (PFloat (-1))
  = (Raise (AssertionError "The solid angle must be nonnegative"),
     Some (with_default_c param_grid)).
Proof.
  exact (proj2 (proj2 (diverging_rejects gep_ok fmin_lo param_grid
                         [0; 1; 0; 1] [0; 0; 1; 1] 0 0 (-1) eq_refl eq_refl))
           Rabs_0_lt_PI2 Rabs_0_lt_PI2 minus_one_below_zero).
Defined.

Lemma empty_array_fails_witness :
  txdelay3Focused gep_ok fmin_lo (PParam param_empty)
                  (PFloat 0) (PFloat 0) (PFloat 1)
  = (Raise (ValueError "zero-size array to reduction operation minimum which has no identity"),
     Some (with_default_c param_empty)).
Proof.
  exact (proj2 (empty_array_fails gep_ok fmin_lo param_empty 0 0 0 0 1
                  eq_refl eq_refl)).
Defined.

Lemma fmin_lo_nonnegative :
  forall f : R -> R, 0 <= fmin_lo f 0 (2 * PI) (1 / 1000000).
Proof. intros f. unfold fmin_lo. lra. Qed.

Lemma virtual_source_behind_witness :
  snd (virtual_source fmin_lo 0 0 0 1 1) <= 0.
Proof.
  exact (virtual_source_behind fmin_lo 0 0 0 1 1 fmin_lo_nonnegative
           Rabs_0_lt_PI2 Rabs_0_lt_PI2).
Defined.


Lemma plaid_test_reorder_witness :
  plaid_test [0; 1] [0; 0] = plaid_test [1; 0] [0; 0].
Proof.
  exact (plaid_test_reorder [0; 1] [0; 0] [1; 0] [0; 0]
           (perm_swap 1 0 []) (Permutation_refl [0; 0])).
Defined.

Lemma square_nonempty : [-1 / 1000; 1 / 1000; -1 / 1000; 1 / 1000] <> [].
Proof. discriminate. Qed.

Lemma line_focus_swap_witness :
  exists row1 row2,
    fst (txdelay3Focused gep_ok fmin_lo (PParam param_square)
                         (PList [-1 / 100; 1 / 100]) (PList [0; 0])
                         (PList [25 / 1000; 25 / 1000]))
    = Ok [row1; row2] /\
    fst (txdelay3Focused gep_ok fmin_lo (PParam param_square)
                         (PList [1 / 100; -1 / 100]) (PList [0; 0])
                         (PList [25 / 1000; 25 / 1000]))
    = Ok [row2; row1].
Proof.
  exact (line_focus_swap gep_ok fmin_lo param_square
           [-1 / 1000; 1 / 1000; -1 / 1000; 1 / 1000]
           [-1 / 1000; -1 / 1000; 1 / 1000; 1 / 1000]
           (-1 / 100) (1 / 100) 0 0 (25 / 1000) (25 / 1000)
           eq_refl eq_refl square_nonempty eq_refl).
Defined.

Lemma default_velocity_is_1540_witness :
  fst (txdelay3Plane gep_ok fmin_lo (PParam param_pair_no_c)
                     (PFloat 0) (PFloat 0))
  = fst (txdelay3Plane gep_ok fmin_lo (PParam (set_c 1540 param_pair_no_c))
                       (PFloat 0) (PFloat 0)).
Proof.
  exact (proj1 (default_velocity_is_1540 gep_ok fmin_lo param_pair_no_c
                  eq_refl) (PFloat 0) (PFloat 0)).
Defined.

(** ** X19: the slope of a plane-wave ramp *)

(** X19. With a positive velocity and a tilt about the y-axis in
    [[0, pi/2)], of two elements with the same y-coordinate the one with
    the larger x-coordinate never fires earlier: the returned delays
    grow along x. *)
Theorem plane_wave_ramp
        (gep : Param -> result (list R * list R * list R * list R))
        (fmin : (R -> R) -> R -> R -> R -> R)
        (p : Param) (xe ye : list R) (tiltx tilty : R) (i j : nat) :
  elements p = Some [xe; ye] ->
  length xe = length ye ->
  is_ok (gep (with_default_c p)) = true ->
  0 < velocity p ->
  Rabs tiltx < PI / 2 ->
  0 <= tilty < PI / 2 ->
  (i < length xe)%nat ->
  (j < length xe)%nat ->
  nth i ye 0 = nth j ye 0 ->
  nth i xe 0 <= nth j xe 0 ->
  exists row,
    fst (txdelay3Plane gep fmin (PParam p) (PFloat tiltx) (PFloat tilty))
    = Ok [row] /\
    length row = length xe /\
    nth i row 0 <= nth j row 0.
Proof.
  intros He Hl Hg Hc Hx [Hy0 Hy1] Hi Hj Hye Hxe. unfold txdelay3Plane.
  assert (Hne : xe <> []) by (destruct xe; [cbn in Hi; lia|discriminate]).
  assert (Hy : Rabs tilty < PI / 2) by (rewrite Rabs_right; lra).
  pose proof (tilt_ok_true _ _ Hx Hy) as Ht.
  pose proof (plane_wave_run gep fmin p xe ye tiltx tilty He Hl Hne Hg Ht) as H.
  cbv zeta in H. rewrite H. clear H. cbn [fst].
  set (raw := map2 (DelayLawSpec.plane_delay (velocity p) tiltx tilty) xe ye).
  assert (Hlen : length raw = length xe) by (unfold raw; now apply map2_length).
  exists (shifted raw). split; [reflexivity|].
  split; [now rewrite shifted_length|].
  rewrite !nth_shifted by lia. unfold raw.
  rewrite (nth_map2 _ _ _ _ 0 0 0 Hl Hi), (nth_map2 _ _ _ _ 0 0 0 Hl Hj).
  unfold DelayLawSpec.plane_delay. rewrite Hye.
  assert (Hs : 0 <= sin tilty).
  { apply sin_ge_0; [lra|]. pose proof PI_RGT_0. lra. }
  assert (Hinv : 0 < / velocity p) by now apply Rinv_0_lt_compat.
  unfold Rdiv.
  apply Rplus_le_compat_r, Rmult_le_compat_r; [lra|].
  apply Rplus_le_compat_r. now apply Rmult_le_compat_r.
Qed.

(** ** X20: a diverging wave fires the nearest element first *)

(** X20. When the minimiser answers a positive distance, the virtual
    source of a diverging-wave call lies behind the array, and an
    element nearer to it never fires later than a farther one. *)
Theorem diverging_fires_nearest_first
        (gep : Param -> result (list R * list R * list R * list R))
        (fmin : (R -> R) -> R -> R -> R -> R)
        (p : Param) (xe ye : list R) (tiltx tilty omega w h : R) (i j : nat) :
  elements p = Some [xe; ye] ->
  length xe = length ye ->
  is_ok (gep (with_default_c p)) = true ->
  0 < velocity p ->
  (forall f, 0 < fmin f 0 (2 * PI) (1 / 1000000)) ->
  Rabs tiltx < PI / 2 ->
  Rabs tilty < PI / 2 ->
  0 <= omega <= 2 * PI ->
  plaid_test xe ye = Ok true ->
  width p = Some w ->
  height p = Some h ->
  (i < length xe)%nat ->
  (j < length xe)%nat ->
  let '(x0, y0, z0) :=
    virtual_source fmin tiltx tilty omega (aperture xe w) (aperture ye h) in
  DelayLawSpec.point_distance x0 y0 z0 (nth j xe 0) (nth j ye 0)
  <= DelayLawSpec.point_distance x0 y0 z0 (nth i xe 0) (nth i ye 0) ->
  z0 < 0 /\
  exists row,
    fst (txdelay3Diverging gep fmin (PParam p) (PFloat tiltx) (PFloat tilty)
                           (PFloat omega))
    = Ok [row] /\
    length row = length xe /\
    nth j row 0 <= nth i row 0.
Proof.
  intros He Hl Hg Hc Hr Hx Hy Ho Hp Hw Hh Hi Hj.
  assert (Hne : xe <> []) by (destruct xe; [cbn in Hi; lia|discriminate]).
  pose proof (diverging_as_focus gep fmin p xe ye tiltx tilty omega w h
                He Hl Hne Hg Hx Hy Ho Hp Hw Hh) as Hdiv.
  pose proof (virtual_source_polar fmin tiltx tilty omega (aperture xe w)
                (aperture ye h)) as Hvs.
  cbv zeta in Hvs.
  destruct (virtual_source fmin tiltx tilty omega (aperture xe w)
                           (aperture ye h)) as [[x0 y0] z0].
  intros Hd.
  assert (Hz : z0 < 0).
  { injection Hvs as _ _ Hz0. rewrite Hz0.
    assert (0 < cos tiltx).
    { apply cos_gt_0; [apply Rabs_def2 in Hx|apply Rabs_def2 in Hx]; lra. }
    assert (0 < cos tilty).
    { apply cos_gt_0; [apply Rabs_def2 in Hy|apply Rabs_def2 in Hy]; lra. }
    assert (Hpos : 0 < cos tilty * cos tiltx) by now apply Rmult_lt_0_compat.
    match goal with
    | |- ?r * _ < 0 =>
        assert (Hr0 : 0 < r) by apply Hr;
        pose proof (Rmult_lt_0_compat _ _ Hr0 Hpos); lra
    end. }
  split; [exact Hz|].
  rewrite Hdiv.
  destruct (focus_order gep fmin p xe ye x0 y0 z0 i j He Hl Hg Hc Hi Hj Hd)
    as (row & Hrow & Hlen & _ & Hneg).
  exists row. split; [exact Hrow|]. split; [exact Hlen|]. now apply Hneg.
Qed.

Lemma zero_in_right_quadrant : 0 <= 0 < PI / 2.
Proof. pose proof PI_RGT_0. lra. Qed.

Lemma plane_wave_ramp_witness :
  exists row,
    fst (txdelay3Plane gep_ok fmin_lo (PParam param_pair) (PFloat 0) (PFloat 0))
    = Ok [row] /\
    length row = length [0; 1] /\
    nth 0 row 0 <= nth 1 row 0.
Proof.
  refine (plane_wave_ramp gep_ok fmin_lo param_pair [0; 1] [0; 0] 0 0 0 1
            eq_refl eq_refl eq_refl pair_velocity_positive Rabs_0_lt_PI2
            zero_in_right_quadrant _ _ eq_refl _); cbn; try lia; lra.
Defined.

Lemma fmin_hi_positive :
  forall f : R -> R, 0 < fmin_hi f 0 (2 * PI) (1 / 1000000).
Proof. intros f. unfold fmin_hi. pose proof PI_RGT_0. lra. Qed.

Lemma grid_velocity_positive : 0 < velocity param_grid.
Proof. unfold velocity. cbn. lra. Qed.

Lemma diverging_fires_nearest_first_witness :
  let '(x0, y0, z0) :=
    virtual_source fmin_hi 0 0 0 (aperture [0; 1; 0; 1] (1 / 2))
                   (aperture [0; 0; 1; 1] (1 / 2)) in
  DelayLawSpec.point_distance x0 y0 z0 (nth 0 [0; 1; 0; 1] 0)
                              (nth 0 [0; 0; 1; 1] 0)
  <= DelayLawSpec.point_distance x0 y0 z0 (nth 0 [0; 1; 0; 1] 0)
                                 (nth 0 [0; 0; 1; 1] 0) ->
  z0 < 0 /\
  exists row,
    fst (txdelay3Diverging gep_ok fmin_hi (PParam param_grid) (PFloat 0)
                           (PFloat 0) (PFloat 0))
    = Ok [row] /\
    length row = length [0; 1; 0; 1] /\
    nth 0 row 0 <= nth 0 row 0.
Proof.
  refine (diverging_fires_nearest_first gep_ok fmin_hi param_grid
            [0; 1; 0; 1] [0; 0; 1; 1] 0 0 0 (1 / 2) (1 / 2) 0 0
            eq_refl eq_refl eq_refl grid_velocity_positive fmin_hi_positive
            Rabs_0_lt_PI2 Rabs_0_lt_PI2 zero_in_solid_angle_range
            plaid_grid_run eq_refl eq_refl _ _); cbn; lia.
Defined.
